(** * error_analyser: the field-comparison engine of [analyser.py]

    A shallow embedding of [ErrorAnalyzer] (src/analyser.py) and the
    properties of its result table, score conversion, effect size and
    p-value adjustment.

    Python values are modelled as they are at run time: a [float] is an
    IEEE-754 binary64 (Rocq's primitive [float]), an [int] is a [Z], an
    exception is the [Raise] branch of [result].  The statistical tests of
    scipy are not part of the repository: the numeric one is the strategy
    object injected into the engine, the chi-squared one is a variable of
    the section. *)

From Stdlib Require Import ZArith String List Bool Lia Floats.
Import ListNotations.

Set Warnings "-inexact-float".

(** ** Python values, exceptions *)

Module Py.

(** The scalars a DataFrame cell can hold. *)
Inductive value :=
| VInt (z : Z)
| VFloat (f : float)
| VBool (b : bool)
| VStr (s : string)
| VNone.

(** [isinstance(x, (int, float))]: [bool] is a subclass of [int]. *)
Definition isinstance_int_float (x : value) : bool :=
  match x with
  | VInt _ | VFloat _ | VBool _ => true
  | VStr _ | VNone => false
  end.

(** [isinstance(x, bool)]. *)
Definition isinstance_bool (x : value) : bool :=
  match x with
  | VBool _ => true
  | _ => false
  end.

(** [isinstance(x, str)]. *)
Definition isinstance_str (x : value) : bool :=
  match x with
  | VStr _ => true
  | _ => false
  end.

Inductive exn :=
| ValueError (msg : string)
| TypeError (msg : string)
| AttributeError (msg : string)
| KeyError (key : string)
| LibraryError (msg : string).

Inductive result (A : Type) :=
| Ok (a : A)
| Raise (e : exn).

Arguments Ok {A} a.
Arguments Raise {A} e.

Definition bind {A B} (m : result A) (k : A -> result B) : result B :=
  match m with
  | Ok a => k a
  | Raise e => Raise e
  end.

(** A [for] loop whose body may raise: the first exception ends the loop. *)
Fixpoint for_each {A S} (body : A -> S -> result S) (l : list A) (s : S)
  : result S :=
  match l with
  | [] => Ok s
  | a :: l' => bind (body a s) (for_each body l')
  end.

(** Python numbers that come out of mixed [int]/[float] arithmetic. *)
Inductive num :=
| NInt (z : Z)
| NFloat (f : float).

(** [float(z)] for an [int]: the nearest binary64, ties to even. *)
Definition float_of_int (z : Z) : float :=
  SF2Prim (binary_normalize prec emax z 0 false).

Definition to_float (n : num) : float :=
  match n with
  | NInt z => float_of_int z
  | NFloat f => f
  end.

(** [a * b]: an [int] when both are, else the binary64 product. *)
Definition num_mul (a b : num) : num :=
  match a, b with
  | NInt x, NInt y => NInt (x * y)
  | _, _ => NFloat (PrimFloat.mul (to_float a) (to_float b))
  end.

(** [a - b]. *)
Definition num_sub (a b : num) : num :=
  match a, b with
  | NInt x, NInt y => NInt (x - y)
  | _, _ => NFloat (PrimFloat.sub (to_float a) (to_float b))
  end.

(** [a <= b] on numbers (exact on integers, IEEE on floats). *)
Definition num_le (a b : num) : bool :=
  match a, b with
  | NInt x, NInt y => Z.leb x y
  | _, _ => PrimFloat.leb (to_float a) (to_float b)
  end.

(** [a < b]. *)
Definition num_lt (a b : num) : bool :=
  match a, b with
  | NInt x, NInt y => Z.ltb x y
  | _, _ => PrimFloat.ltb (to_float a) (to_float b)
  end.

(** [lo <= x <= hi] for integer bounds. *)
Definition num_between (lo hi : Z) (x : num) : bool :=
  num_le (NInt lo) x && num_le x (NInt hi).

(** [min(a, b)] of the builtins: [b] when [b < a], else [a]. *)
Definition py_min (a b : float) : float :=
  if PrimFloat.ltb b a then b else a.

(** [x in l] for a list of strings. *)
Definition contains (x : string) (l : list string) : bool :=
  existsb (String.eqb x) l.

(** No string occurs twice. *)
Fixpoint distinct (l : list string) : bool :=
  match l with
  | [] => true
  | x :: l' => negb (contains x l') && distinct l'
  end.

(** *** dict: insertion ordered, a key set again keeps its place *)

Definition dict (V : Type) := list (string * V).

Fixpoint dict_set {V} (k : string) (v : V) (d : dict V) : dict V :=
  match d with
  | [] => [(k, v)]
  | (k', v') :: d' =>
      if String.eqb k' k then (k, v) :: d' else (k', v') :: dict_set k v d'
  end.

Fixpoint dict_get {V} (k : string) (d : dict V) : option V :=
  match d with
  | [] => None
  | (k', v') :: d' => if String.eqb k' k then Some v' else dict_get k d'
  end.

Definition keys {V} (d : dict V) : list string := map fst d.

End Py.

Import Py.

Declare Scope py_scope.
Delimit Scope py_scope with py.
Notation "x <- m ;; k" := (bind m (fun x => k))
  (at level 61, m at next level, right associativity) : py_scope.
Notation "' p <- m ;; k" := (bind m (fun x => let p := x in k))
  (at level 61, p pattern, m at next level, right associativity) : py_scope.
Open Scope py_scope.

(** ** pandas: Series and DataFrame *)

Module Pandas.

Definition Series := list value.

(** Columns in their native order; labels are taken to be unique, as in a
    frame built from records.  The statements that read a column assume
    [NoDup (columns df)]: for a label that occurs twice pandas answers a
    DataFrame instead of a Series, which this type does not hold. *)
Definition DataFrame := list (string * Series).

Definition columns (df : DataFrame) : list string := map fst df.

(** [df[field]] for a frame with unique labels. *)
Fixpoint getitem (df : DataFrame) (field : string) : result Series :=
  match df with
  | [] => Raise (KeyError field)
  | (c, s) :: df' => if String.eqb c field then Ok s else getitem df' field
  end.

(** A numeric cell as a binary64; strings and [None] do not convert. *)
Definition cell_to_float (x : value) : result float :=
  match x with
  | VInt z => Ok (float_of_int z)
  | VFloat f => Ok f
  | VBool b => Ok (if b then 1%float else 0%float)
  | VStr _ => Raise (TypeError "Could not convert string to numeric")
  | VNone => Raise (TypeError "unsupported operand type")
  end.

Fixpoint to_floats (s : Series) : result (list float) :=
  match s with
  | [] => Ok []
  | x :: s' =>
      f <- cell_to_float x ;;
      fs <- to_floats s' ;;
      Ok (f :: fs)
  end.

Definition fsum (l : list float) : float :=
  fold_left PrimFloat.add l 0%float.

Definition flen (l : list float) : float :=
  float_of_int (Z.of_nat (length l)).

(** [Series.mean()]: the sum over the count, summed from left to right
    over every cell (pandas leaves NaN cells out and adds long columns
    pairwise; the two agree on short columns without NaN). *)
Definition mean (s : Series) : result float :=
  fs <- to_floats s ;;
  Ok (fsum fs / flen fs)%float.

(** [Series.std()]: the square root of the sample variance (ddof = 1),
    the squared deviations from the mean summed and divided by n - 1;
    summation as in [mean], for a column that is not empty. *)
Definition std (s : Series) : result float :=
  fs <- to_floats s ;;
  let avg := (fsum fs / flen fs)%float in
  let sqr := map (fun x => ((avg - x) * (avg - x))%float) fs in
  Ok (PrimFloat.sqrt
        (fsum sqr / float_of_int (Z.of_nat (length fs) - 1)))%float.

End Pandas.

Import Pandas.

(** ** ErrorAnalyzer *)

(** A numeric strategy object: its [calculate_probability]. *)
Definition NumericalStrategy := Series -> Series -> result float.

(** The values of the probability map: the drift constants are 4-tuples
    [(str, float, bool, str)], an analysed field gets the 3-tuple
    [(p_value, False, None)]. *)
Inductive entry :=
| Tuple4 (label : string) (probability : float) (flag : bool)
         (details : string)
| Tuple3 (p_value : float) (is_additional : bool) (details : option string).

(** [(p_value, is_additional, details) = t]: only a 3-tuple unpacks. *)
Definition unpack3 (t : entry) : result (float * bool * option string) :=
  match t with
  | Tuple3 p a d => Ok (p, a, d)
  | Tuple4 _ _ _ _ =>
      Raise (ValueError "too many values to unpack (expected 3)")
  end.

(** A row of the DataFrame returned by [run]. *)
Record Row := {
  field : string;
  probability : num;
  extra_status : bool;
  details : option string
}.

Record ErrorAnalyzer := {
  good_data : DataFrame;
  bad_data : DataFrame;
  fields_to_ignore : list string;
  numerical_strategy : option NumericalStrategy
}.

(** [__init__]: a missing or empty ignore-list becomes [[]]. *)
Definition init (good bad : DataFrame) (ignore : option (list string))
  (strategy : option NumericalStrategy) : ErrorAnalyzer :=
  {| good_data := good;
     bad_data := bad;
     fields_to_ignore :=
       match ignore with
       | Some (x :: l) => x :: l
       | _ => []
       end;
     numerical_strategy := strategy |}.

Definition fields_to_analyze (self : ErrorAnalyzer) : list string :=
  columns (good_data self).

Definition MAX_PROBABILITY : float := 0.99999%float.

Definition MISSING_BAD_DATA : entry :=
  Tuple4 "Missing in bad_data" MAX_PROBABILITY true "Missing in bad_data".

Definition ADDITIONAL_BAD_DATA : entry :=
  Tuple4 "Additional in bad_data" MAX_PROBABILITY true
         "Additional in bad_data".

Definition alpha : float := 0.05%float.

(** [_calculate_probability]. *)
Definition _calculate_probability (p_value : float) (is_additional : bool)
  : num :=
  let probability :=
    if is_additional then NFloat MAX_PROBABILITY
    else if PrimFloat.ltb p_value alpha then num_sub (NInt 1) (NFloat p_value)
    else NInt 0 in
  num_mul probability (NInt 100).

(** [_apply_bonferroni_correction]: two comprehensions. *)
Definition _apply_bonferroni_correction (p_values : list float)
  : list float :=
  let adjusted_p_values :=
    map (fun p_value =>
           to_float (num_mul (NFloat p_value)
                             (NInt (Z.of_nat (length p_values)))))
        p_values in
  map (fun p_value => py_min p_value 1%float) adjusted_p_values.

(** [adjust_p_values]. *)
Definition adjust_p_values (p_values : list float)
  (adjustment_method : string) : result (list float) :=
  if String.eqb adjustment_method "bonferroni"
  then Ok (_apply_bonferroni_correction p_values)
  else Raise (ValueError ("Adjustment method '" ++ adjustment_method
                            ++ "' is not supported.")).

Section Engine.

(** [pd.crosstab] followed by [scipy.stats.chi2_contingency], reduced to
    the p-value it returns or the exception it raises. *)
Variable chi2_contingency : Series -> Series -> result float.

Definition _calculate_categorical_probability (good_values bad_values : Series)
  : result float :=
  chi2_contingency good_values bad_values.

(** [_calculate_numerical_probability]: without a strategy the attribute
    access on [None] raises. *)
Definition _calculate_numerical_probability (self : ErrorAnalyzer)
  (good_values bad_values : Series) : result float :=
  match numerical_strategy self with
  | Some strategy => strategy good_values bad_values
  | None =>
      Raise (AttributeError
               "'NoneType' object has no attribute 'calculate_probability'")
  end.

(** Body of the first loop of [_calculate_probabilities]. *)
Definition good_field (self : ErrorAnalyzer) (field : string)
  (probabilities : dict entry) : result (dict entry) :=
  if contains field (fields_to_ignore self) then Ok probabilities
  else if negb (contains field (columns (bad_data self))) then
    Ok (dict_set field MISSING_BAD_DATA probabilities)
  else
    good_field_values <- getitem (good_data self) field ;;
    bad_field_values <- getitem (bad_data self) field ;;
    if forallb isinstance_int_float good_field_values then
      p_value <- _calculate_numerical_probability self good_field_values
                   bad_field_values ;;
      Ok (dict_set field (Tuple3 p_value false None) probabilities)
    else if forallb isinstance_str good_field_values then
      p_value <- _calculate_categorical_probability good_field_values
                   bad_field_values ;;
      Ok (dict_set field (Tuple3 p_value false None) probabilities)
    else Ok probabilities.

(** Body of the second loop. *)
Definition bad_field (self : ErrorAnalyzer) (field : string)
  (probabilities : dict entry) : result (dict entry) :=
  if negb (contains field (columns (good_data self))) then
    if negb (contains field (fields_to_ignore self)) then
      Ok (dict_set field ADDITIONAL_BAD_DATA probabilities)
    else Ok probabilities
  else Ok probabilities.

(** [_calculate_probabilities]. *)
Definition _calculate_probabilities (self : ErrorAnalyzer)
  : result (dict entry) :=
  probabilities <- for_each (good_field self) (columns (good_data self)) [] ;;
  for_each (bad_field self) (columns (bad_data self)) probabilities.

(** Body of the loop of [run]. *)
Definition run_item (self : ErrorAnalyzer) (item : string * entry)
  (results : list Row) : result (list Row) :=
  let '(field, t) := item in
  '(p_value, is_additional, details) <- unpack3 t ;;
  let probability := _calculate_probability p_value is_additional in
  if negb (contains field (fields_to_ignore self)) then
    Ok (results ++ [ {| field := field;
                        probability := probability;
                        extra_status := is_additional;
                        details := details |} ])
  else Ok results.

(** [run]: the rows of the returned DataFrame. *)
Definition run (self : ErrorAnalyzer) : result (list Row) :=
  probabilities <- _calculate_probabilities self ;;
  for_each (run_item self) probabilities [].

(** [_calculate_effect_size]; [s ** 2] is the product [s * s]. *)
Definition _calculate_effect_size (self : ErrorAnalyzer) (p_value : float)
  (field : string) : result float :=
  good_values <- getitem (good_data self) field ;;
  bad_values <- getitem (bad_data self) field ;;
  good_values_mean <- mean good_values ;;
  bad_values_mean <- mean bad_values ;;
  good_values_std <- std good_values ;;
  bad_values_std <- std bad_values ;;
  let n1 := Z.of_nat (length good_values) in
  let n2 := Z.of_nat (length bad_values) in
  let pooled_std :=
    ((float_of_int (n1 - 1) * (good_values_std * good_values_std)
      + float_of_int (n2 - 1) * (bad_values_std * bad_values_std))
     / float_of_int (n1 + n2 - 2))%float in
  let cohen_d :=
    (PrimFloat.abs (good_values_mean - bad_values_mean) / pooled_std)%float in
  Ok cohen_d.

(** [calculate_effect_size]. *)
Definition calculate_effect_size (self : ErrorAnalyzer) (field : string)
  : result float :=
  if contains field (fields_to_ignore self) then Ok 0%float
  else
    probabilities <- _calculate_probabilities self ;;
    match dict_get field probabilities with
    | None => Ok 0%float
    | Some t =>
        '(p_value, _, _) <- unpack3 t ;;
        _calculate_effect_size self p_value field
    end.

(** The statistic the specification words: the absolute difference of
    the means over the pooled standard deviation
    [sqrt(((n1-1) s1^2 + (n2-1) s2^2) / (n1+n2-2))].  Kept apart from
    [_calculate_effect_size] to compare the two. *)
Definition pooled_std_cohen_d (good_values bad_values : Series)
  : result float :=
  good_values_mean <- mean good_values ;;
  bad_values_mean <- mean bad_values ;;
  good_values_std <- std good_values ;;
  bad_values_std <- std bad_values ;;
  let n1 := Z.of_nat (length good_values) in
  let n2 := Z.of_nat (length bad_values) in
  let pooled_variance :=
    ((float_of_int (n1 - 1) * (good_values_std * good_values_std)
      + float_of_int (n2 - 1) * (bad_values_std * bad_values_std))
     / float_of_int (n1 + n2 - 2))%float in
  Ok (PrimFloat.abs (good_values_mean - bad_values_mean)
      / PrimFloat.sqrt pooled_variance)%float.

(** *** Which fields get an entry, and what is stored *)

Definition ignored (self : ErrorAnalyzer) (f : string) : bool :=
  contains f (fields_to_ignore self).

Definition in_good (self : ErrorAnalyzer) (f : string) : bool :=
  contains f (columns (good_data self)).

Definition in_bad (self : ErrorAnalyzer) (f : string) : bool :=
  contains f (columns (bad_data self)).

(** The reference column of [f] is all numbers or all strings. *)
Definition classifiable (self : ErrorAnalyzer) (f : string) : bool :=
  match getitem (good_data self) f with
  | Ok col => forallb isinstance_int_float col || forallb isinstance_str col
  | Raise _ => false
  end.

(** The reference fields that get an entry. *)
Definition kept_good (self : ErrorAnalyzer) (f : string) : bool :=
  negb (ignored self f) && (negb (in_bad self f) || classifiable self f).

(** The candidate fields that get an entry. *)
Definition kept_bad (self : ErrorAnalyzer) (f : string) : bool :=
  negb (in_good self f) && negb (ignored self f).

(** What the first loop stores under [f]. *)
Definition good_entry (self : ErrorAnalyzer) (f : string) (t : entry)
  : Prop :=
  (in_bad self f = false /\ t = MISSING_BAD_DATA) \/
  (exists g b p,
      getitem (good_data self) f = Ok g /\
      getitem (bad_data self) f = Ok b /\
      t = Tuple3 p false None /\
      ((forallb isinstance_int_float g = true /\
        _calculate_numerical_probability self g b = Ok p) \/
       (forallb isinstance_int_float g = false /\
        forallb isinstance_str g = true /\
        chi2_contingency g b = Ok p))).

(** What the second loop stores. *)
Definition bad_entry (f : string) (t : entry) : Prop :=
  t = ADDITIONAL_BAD_DATA.

(** The rows an item of the map contributes to the table of [run]. *)
Definition rows_of_item (self : ErrorAnalyzer) (item : string * entry)
  : list Row :=
  match snd item with
  | Tuple3 p a dt =>
      if negb (contains (fst item) (fields_to_ignore self)) then
        [ {| field := fst item;
             probability := _calculate_probability p a;
             extra_status := a;
             details := dt |} ]
      else []
  | Tuple4 _ _ _ _ => []
  end.

(** The rows of a table that belong to one field. *)
Definition rows_for (f : string) (tbl : list Row) : list Row :=
  filter (fun r => String.eqb (field r) f) tbl.

(** Every field that is not ignored is in both frames. *)
Definition no_drift (self : ErrorAnalyzer) : bool :=
  forallb (fun f => ignored self f || in_bad self f)
          (columns (good_data self))
  && forallb (fun f => in_good self f || ignored self f)
             (columns (bad_data self)).

(** The field names of the map in the order the two loops visit them. *)
Definition expected_order (self : ErrorAnalyzer) : list string :=
  filter (kept_good self) (columns (good_data self))
  ++ filter (kept_bad self) (columns (bad_data self)).

End Engine.


(** ** Binary64 rounding

    The value of a non-negative finite binary64 [x] is kept as the natural
    number [x * 2^1074]; every such float is a multiple of [2^-1074]. *)

Module Binary64.

#[local] Open Scope Z_scope.

(** [m / 2^n] rounded to the nearest integer, ties to even. *)
Definition rne (m n : Z) : Z :=
  let q := m / 2 ^ n in
  match 2 * (m mod 2 ^ n) ?= 2 ^ n with
  | Lt => q
  | Eq => if Z.even q then q else q + 1
  | Gt => q + 1
  end.

(** Number of bits of a natural number. *)
Definition bits (n : Z) : Z := Zdigits2 n.

(** For a natural number [n] standing for the real [n * 2^-1074], the
    number standing for the nearest binary64 (no overflow). *)
Definition round64 (n : Z) : Z :=
  let k := Z.max (bits n - 53) 0 in
  rne n k * 2 ^ k.

(** The natural number [x * 2^1074] of a non-negative finite [x]. *)
Definition scaled (x : spec_float) : Z :=
  match x with
  | S754_finite false m e => Zpos m * 2 ^ (e + 1074)
  | _ => 0
  end.

(** Zero or a positive finite number. *)
Definition nonneg_finite (x : spec_float) : bool :=
  match x with
  | S754_zero _ => true
  | S754_finite false _ _ => true
  | _ => false
  end.

Definition b2z (b : bool) : Z := if b then 1 else 0.

(** [mrs] is [x / 2] shifted right [n] times, with its round and sticky
    bits. *)
Definition shifted (x n : Z) (mrs : shr_record) : Prop :=
  exists low,
    0 <= low < 2 ^ n /\
    x = shr_m mrs * 2 ^ (n + 1) + b2z (shr_r mrs) * 2 ^ n + low /\
    shr_s mrs = negb (low =? 0) /\
    0 <= shr_m mrs.

(** The binary64 [100.0]. *)
Definition hundred_sf : spec_float :=
  S754_finite false 7036874417766400 (-46).

End Binary64.

Import Binary64.

(** ** Sample engines *)

Module Examples.

#[local] Open Scope string_scope.

(** The samples of the docstring of [TTestStrategy]. *)
Definition sizes_good : Series := map VInt [20; 22; 21; 23; 18]%Z.
Definition sizes_bad : Series := map VInt [35; 32; 40; 30; 38]%Z.

(** A strategy object answering the p-value that docstring reports. *)
Definition docstring_strategy : NumericalStrategy :=
  fun _ _ => Ok 0.0005528697203011475%float.

(** A chi-squared test answering the p-value of the docstring of
    [ChiSquaredStrategy]. *)
Definition docstring_chi2 (good_values bad_values : Series) : result float :=
  Ok 0.7376674784345812%float.

Definition colours : Series := [VStr "green"; VStr "yellow"; VStr "red"].

(** Both frames have the same columns; [secret] is ignored, [mixed] holds
    a number and a string, [flag] holds booleans. *)
Definition shared_engine : ErrorAnalyzer :=
  init [("size", sizes_good); ("color", colours);
        ("mixed", [VInt 1; VStr "x"]); ("secret", [VInt 7]);
        ("flag", [VBool true; VBool false])]
       [("size", sizes_bad); ("color", colours);
        ("mixed", [VInt 1; VStr "x"]); ("secret", [VInt 8]);
        ("flag", [VBool true; VBool true])]
       (Some ["secret"]) (Some docstring_strategy).

(** [gone] is only in the reference frame, [new] only in the candidate. *)
Definition drift_engine : ErrorAnalyzer :=
  init [("size", sizes_good); ("gone", [VInt 1])]
       [("size", sizes_bad); ("new", [VStr "a"])]
       None (Some docstring_strategy).

(** Only a candidate-only column. *)
Definition additional_engine : ErrorAnalyzer :=
  init [("size", sizes_good)]
       [("size", sizes_bad); ("new", [VStr "a"])]
       None (Some docstring_strategy).

(** The table [run] returns for [shared_engine]. *)
Definition shared_table : list Row :=
  Eval vm_compute in
    match run docstring_chi2 shared_engine with
    | Ok tbl => tbl
    | Raise _ => []
    end.

(** The map [_calculate_probabilities] builds for [shared_engine]. *)
Definition shared_probabilities : dict entry :=
  Eval vm_compute in
    match _calculate_probabilities docstring_chi2 shared_engine with
    | Ok d => d
    | Raise _ => []
    end.

(** The map [_calculate_probabilities] builds for [drift_engine]. *)
Definition drift_probabilities : dict entry :=
  Eval vm_compute in
    match _calculate_probabilities docstring_chi2 drift_engine with
    | Ok d => d
    | Raise _ => []
    end.

End Examples.

(** ** More sample engines *)

Module MoreExamples.

#[local] Open Scope string_scope.

(** An engine built without a numeric strategy, as the default argument
    of [__init__] allows. *)
Definition no_strategy_engine : ErrorAnalyzer :=
  init [("size", Examples.sizes_good); ("color", Examples.colours)]
       [("size", Examples.sizes_bad); ("color", Examples.colours)]
       None None.



(** Nothing to analyse: [size] is ignored and [mixed] holds a number and
    a string. *)
Definition unanalysed_engine : ErrorAnalyzer :=
  init [("size", Examples.sizes_good); ("mixed", [VInt 1; VStr "x"])]
       [("size", Examples.sizes_bad); ("mixed", [VInt 2; VStr "y"])]
       (Some ["size"]) (Some Examples.docstring_strategy).

(** The shared columns [size] and [color], and [gone], which only the
    reference frame has. *)
Definition lost_column_engine : ErrorAnalyzer :=
  init [("size", Examples.sizes_good); ("color", Examples.colours);
        ("gone", [VInt 1])]
       [("size", Examples.sizes_bad); ("color", Examples.colours)]
       None (Some Examples.docstring_strategy).

(** The same frames without the column [gone]. *)
Definition kept_column_engine : ErrorAnalyzer :=
  init [("size", Examples.sizes_good); ("color", Examples.colours)]
       [("size", Examples.sizes_bad); ("color", Examples.colours)]
       None (Some Examples.docstring_strategy).

End MoreExamples.

(** The engine with the reference and the candidate frame exchanged. *)
Definition exchanged (self : ErrorAnalyzer) : ErrorAnalyzer :=
  {| good_data := bad_data self;
     bad_data := good_data self;
     fields_to_ignore := fields_to_ignore self;
     numerical_strategy := numerical_strategy self |}.

(** ** create_graphs

    What [create_graphs] computes from the table and asks matplotlib to
    draw: the grey bars of the fields without a row, the bar of every row
    with its colour, and whether the legend of drift rows is asked for.
    The calls that depend on no data (style, figure size, titles, axis
    limits, the colour bar) and the text label of each bar are not
    modelled.  A [Figure] is therefore the list of these requests, not the
    outcome of matplotlib: [plt.colorbar(sm)] is given a mappable that
    belongs to no Axes, which recent versions of matplotlib refuse with a
    [ValueError] once the bars are drawn, so [Ok fig] does not say that
    the call of [create_graphs] comes back. *)

Module Plot.

(** A colour given to [plt.bar]: the grey [(0.5, 0.5, 0.5)] of a field
    without a row, the blue [(0, 0, 1)] of a flagged row, or the colour
    map [cm.RdYlGn_r] at a normalised score. *)
Inductive colour :=
| Grey
| Blue
| RdYlGn_r (x : float).

Record Figure := {
  missing_bars : list string;
  bars : list (string * num * colour);
  legend : bool;
  saved_to : option string
}.

(** [result_df[name]]: the frame built from an empty list of rows has no
    columns at all. *)
Definition column {A} (name : string) (get : Row -> A)
  (result_df : list Row) : result (list A) :=
  match result_df with
  | [] => Raise (KeyError name)
  | _ :: _ => Ok (map get result_df)
  end.

(** [plt.Normalize(0, 100)] applied to a score. *)
Definition norm (p : num) : float :=
  ((to_float p - 0) / (100 - 0))%float.

(** The comprehension of [status_colors], from index [i] on. *)
Fixpoint status_colors_from (i : nat) (colors : list colour)
  (statuses : list bool) : result (list colour) :=
  match statuses with
  | [] => Ok []
  | is_missing :: statuses' =>
      c <- (if negb is_missing then
              match nth_error colors i with
              | Some c => Ok c
              | None => Raise (LibraryError "IndexError")
              end
            else Ok Blue) ;;
      cs <- status_colors_from (S i) colors statuses' ;;
      Ok (c :: cs)
  end.

(** [set(fields_to_analyze) - set(result_df['field']) - set(ignore)]; the
    order of a Python set is not specified, only membership is meant. *)
Definition missing_fields (self : ErrorAnalyzer) (fields : list string)
  : list string :=
  filter (fun f => negb (contains f fields)
                   && negb (contains f (fields_to_ignore self)))
         (nodup string_dec (fields_to_analyze self)).

(** [if save_path:]: [None] and the empty string both mean [plt.show()]. *)
Definition output (save_path : option string) : option string :=
  match save_path with
  | Some EmptyString | None => None
  | Some path => Some path
  end.

Section CreateGraphs.

Variable chi2_contingency : Series -> Series -> result float.

Definition create_graphs (self : ErrorAnalyzer) (save_path : option string)
  : result Figure :=
  result_df <- run chi2_contingency self ;;
  probabilities <- column "probability" probability result_df ;;
  let colors := map (fun p => RdYlGn_r (norm p)) probabilities in
  statuses <- column "extra_status" extra_status result_df ;;
  status_colors <- status_colors_from 0 colors statuses ;;
  fields <- column "field" field result_df ;;
  Ok {| missing_bars := missing_fields self fields;
        bars := combine (combine fields probabilities) status_colors;
        legend := existsb (fun is_missing => is_missing) statuses;
        saved_to := output save_path |}.

End CreateGraphs.

End Plot.
(** * Properties *)

(** ** Membership, dictionaries and loops *)

Lemma contains_true (x : string) (l : list string) :
  contains x l = true <-> In x l.
Proof.
  unfold contains. rewrite existsb_exists. split.
  - intros [y [Hy He]]. apply String.eqb_eq in He. now subst.
  - intros H. exists x. split; [assumption | apply String.eqb_refl].
Qed.

Lemma contains_false (x : string) (l : list string) :
  contains x l = false <-> ~ In x l.
Proof.
  rewrite <- contains_true. destruct (contains x l); split; congruence.
Qed.

Section Dict.

Variable V : Type.
Implicit Types (d : dict V) (k : string) (v : V).

Lemma keys_dict_set_in k v d k' :
  In k' (keys (dict_set k v d)) <-> k' = k \/ In k' (keys d).
Proof.
  induction d as [|[k0 v0] d IH]; simpl.
  - intuition.
  - destruct (String.eqb k0 k) eqn:E; simpl.
    + apply String.eqb_eq in E. subst. intuition.
    + rewrite IH. intuition.
Qed.

Lemma keys_dict_set_new k v d :
  ~ In k (keys d) -> keys (dict_set k v d) = keys d ++ [k].
Proof.
  induction d as [|[k0 v0] d IH]; simpl; intros H.
  - reflexivity.
  - destruct (String.eqb k0 k) eqn:E.
    + apply String.eqb_eq in E. tauto.
    + simpl. f_equal. apply IH. tauto.
Qed.

Lemma NoDup_dict_set k v d :
  NoDup (keys d) -> NoDup (keys (dict_set k v d)).
Proof.
  induction d as [|[k0 v0] d IH]; simpl; intros H.
  - constructor; [intros [] | constructor].
  - inversion H as [|? ? Hn Hd]; subst.
    destruct (String.eqb k0 k) eqn:E; simpl.
    + apply String.eqb_eq in E. subst. now constructor.
    + constructor; [| now apply IH].
      rewrite keys_dict_set_in. intros [-> | Hin]; [| tauto].
      rewrite String.eqb_refl in E. discriminate.
Qed.

Lemma dict_get_set_eq k v d : dict_get k (dict_set k v d) = Some v.
Proof.
  induction d as [|[k0 v0] d IH]; simpl.
  - now rewrite String.eqb_refl.
  - destruct (String.eqb k0 k) eqn:E; simpl.
    + now rewrite String.eqb_refl.
    + now rewrite E.
Qed.

Lemma dict_get_set_neq k k' v d :
  k' <> k -> dict_get k' (dict_set k v d) = dict_get k' d.
Proof.
  intros Hne. induction d as [|[k0 v0] d IH]; simpl.
  - destruct (String.eqb k k') eqn:E; [| reflexivity].
    apply String.eqb_eq in E. congruence.
  - destruct (String.eqb k0 k) eqn:E; simpl.
    + apply String.eqb_eq in E. subst k0.
      destruct (String.eqb k k') eqn:E'; [| reflexivity].
      apply String.eqb_eq in E'. congruence.
    + now rewrite IH.
Qed.

Lemma dict_get_Some_In k v d : dict_get k d = Some v -> In (k, v) d.
Proof.
  induction d as [|[k0 v0] d IH]; simpl; [discriminate |].
  destruct (String.eqb k0 k) eqn:E.
  - apply String.eqb_eq in E. intros [= ->]. subst. now left.
  - intros H. right. now apply IH.
Qed.

Lemma dict_get_keys k d :
  In k (keys d) -> exists v, dict_get k d = Some v.
Proof.
  induction d as [|[k0 v0] d IH]; simpl; [intros [] |].
  destruct (String.eqb k0 k) eqn:E.
  - intros _. now exists v0.
  - intros [-> | H]; [| now apply IH].
    rewrite String.eqb_refl in E. discriminate.
Qed.

Lemma dict_get_None k d : ~ In k (keys d) -> dict_get k d = None.
Proof.
  induction d as [|[k0 v0] d IH]; simpl; [reflexivity |].
  intros H. destruct (String.eqb k0 k) eqn:E.
  - apply String.eqb_eq in E. tauto.
  - apply IH. tauto.
Qed.

Lemma In_dict_get k v d :
  NoDup (keys d) -> In (k, v) d -> dict_get k d = Some v.
Proof.
  induction d as [|[k0 v0] d IH]; simpl; [intros _ [] |].
  intros Hnd. inversion Hnd as [|? ? Hn Hd]; subst.
  intros [[= -> ->] | Hin].
  - now rewrite String.eqb_refl.
  - destruct (String.eqb k0 k) eqn:E; [| now apply IH].
    apply String.eqb_eq in E. subst k0. exfalso. apply Hn.
    change k with (fst (k, v)). now apply in_map.
Qed.

End Dict.

Section ForEach.

Variables A S : Type.
Variable body : A -> S -> result S.

Lemma for_each_cons_Ok a l s s' :
  for_each body (a :: l) s = Ok s' ->
  exists s1, body a s = Ok s1 /\ for_each body l s1 = Ok s'.
Proof.
  simpl. destruct (body a s) as [s1|e]; simpl; [| discriminate].
  intros H. now exists s1.
Qed.

(** A property kept by every iteration holds when the loop ends. *)
Lemma for_each_invariant (P : S -> Prop) l :
  (forall a s s', In a l -> P s -> body a s = Ok s' -> P s') ->
  forall s s', P s -> for_each body l s = Ok s' -> P s'.
Proof.
  induction l as [|a l IH]; intros Hstep s s' Hs H.
  - simpl in H. now injection H as <-.
  - apply for_each_cons_Ok in H as [s1 [H1 H2]].
    apply (IH (fun a0 s0 s0' Hin => Hstep a0 s0 s0' (or_intror Hin)) s1 s');
      [| assumption].
    apply (Hstep a s); [now left | assumption | assumption].
Qed.

(** An item on which the body always raises makes the loop raise. *)
Lemma for_each_raises a l :
  In a l -> (forall s s', body a s <> Ok s') ->
  forall s s', for_each body l s <> Ok s'.
Proof.
  intros Hin Hbad. induction l as [|b l IH]; [destruct Hin |].
  intros s s' H. apply for_each_cons_Ok in H as [s1 [H1 H2]].
  destruct Hin as [-> | Hin].
  - now apply (Hbad s s1).
  - now apply (IH Hin s1 s').
Qed.

End ForEach.

(** ** Loops that set at most one key per iteration

    Both loops of [_calculate_probabilities] have this shape: an item is
    either skipped or written under its own name. *)

Section SetLoop.

Variable body : string -> dict entry -> result (dict entry).
Variable keep : string -> bool.
Variable val : string -> entry -> Prop.

Hypothesis step : forall f acc d,
  body f acc = Ok d ->
  (keep f = false /\ d = acc) \/
  (keep f = true /\ exists t, val f t /\ d = dict_set f t acc).

Lemma set_loop_keys l : forall acc d,
  for_each body l acc = Ok d ->
  forall f, In f (keys d) <-> In f (keys acc) \/ (In f l /\ keep f = true).
Proof.
  induction l as [|a l IH]; intros acc d H f.
  - simpl in H. injection H as <-. simpl. tauto.
  - apply for_each_cons_Ok in H as [d1 [H1 H2]].
    rewrite (IH _ _ H2 f).
    destruct (step _ _ _ H1) as [[Hk ->] | [Hk [t [_ ->]]]].
    + simpl. split; [tauto |].
      intros [H | [[-> | H] Hf]]; [tauto | congruence | tauto].
    + rewrite keys_dict_set_in. simpl. split; [| intuition congruence].
      intros [[-> | H] | [H Hf]]; tauto.
Qed.

Lemma set_loop_NoDup l : forall acc d,
  for_each body l acc = Ok d -> NoDup (keys acc) -> NoDup (keys d).
Proof.
  intros acc d H Hnd. revert H.
  apply for_each_invariant with (P := fun d => NoDup (keys d));
    [| assumption].
  intros a s s' _ Hs Hb.
  destruct (step _ _ _ Hb) as [[_ ->] | [_ [t [_ ->]]]];
    [assumption | now apply NoDup_dict_set].
Qed.

Lemma set_loop_get l : forall acc d,
  for_each body l acc = Ok d ->
  forall f t, dict_get f d = Some t ->
  dict_get f acc = Some t \/ (In f l /\ keep f = true /\ val f t).
Proof.
  induction l as [|a l IH]; intros acc d H f t Hg.
  - simpl in H. injection H as <-. now left.
  - apply for_each_cons_Ok in H as [d1 [H1 H2]].
    destruct (IH _ _ H2 f t Hg) as [Hg1 | [Hin Hv]];
      [| right; simpl; tauto].
    destruct (step _ _ _ H1) as [[_ ->] | [Hk [t' [Hv ->]]]]; [now left |].
    destruct (String.eqb a f) eqn:E.
    + apply String.eqb_eq in E. subst a.
      rewrite dict_get_set_eq in Hg1. injection Hg1 as ->.
      right. simpl. tauto.
    + left. rewrite dict_get_set_neq in Hg1; [assumption |].
      intros ->. rewrite String.eqb_refl in E. discriminate.
Qed.

(** With distinct items that are not keys yet, the kept ones are appended
    in the order of the iteration. *)
Lemma set_loop_order l : forall acc d,
  NoDup l ->
  (forall f, In f l -> keep f = true -> ~ In f (keys acc)) ->
  for_each body l acc = Ok d ->
  keys d = keys acc ++ filter keep l.
Proof.
  induction l as [|a l IH]; intros acc d Hnd Hfresh H.
  - simpl in H. injection H as <-. simpl. now rewrite app_nil_r.
  - apply for_each_cons_Ok in H as [d1 [H1 H2]].
    inversion Hnd as [|? ? Hna Hnl]; subst.
    destruct (step _ _ _ H1) as [[Hk ->] | [Hk [t [_ ->]]]]; simpl; rewrite Hk.
    + apply (IH acc d Hnl); [| assumption].
      intros f Hf. apply Hfresh. now right.
    + rewrite (IH (dict_set a t acc) d Hnl) with (2 := H2).
      * rewrite keys_dict_set_new by (apply Hfresh; [now left | assumption]).
        now rewrite <- app_assoc.
      * intros f Hf Hkf. rewrite keys_dict_set_in.
        intros [-> | Hin]; [tauto |].
        revert Hin. apply Hfresh; [now right | assumption].
Qed.

End SetLoop.

(** ** The probability map *)

Lemma getitem_Ok_In (df : DataFrame) (f : string) (s : Series) :
  getitem df f = Ok s -> In f (columns df).
Proof.
  induction df as [|[c s0] df IH]; simpl; [discriminate |].
  destruct (String.eqb c f) eqn:E.
  - apply String.eqb_eq in E. now left.
  - intros H. right. now apply IH.
Qed.

Lemma In_getitem (df : DataFrame) (f : string) :
  In f (columns df) -> exists s, getitem df f = Ok s.
Proof.
  induction df as [|[c s0] df IH]; simpl; [intros [] |].
  destruct (String.eqb c f) eqn:E.
  - intros _. now exists s0.
  - intros [-> | H]; [| now apply IH].
    rewrite String.eqb_refl in E. discriminate.
Qed.

Section EngineFacts.

Variable chi2_contingency : Series -> Series -> result float.
Variable self : ErrorAnalyzer.

Lemma good_field_step f acc d :
  good_field chi2_contingency self f acc = Ok d ->
  (kept_good self f = false /\ d = acc) \/
  (kept_good self f = true /\
   exists t, good_entry chi2_contingency self f t /\ d = dict_set f t acc).
Proof.
  unfold good_field, kept_good, classifiable, good_entry, ignored, in_bad.
  destruct (contains f (fields_to_ignore self)); simpl.
  { intros [= <-]. now left. }
  destruct (contains f (columns (bad_data self))); simpl.
  2:{ intros [= <-]. right. split; [reflexivity |]. eauto. }
  destruct (getitem (good_data self) f) as [g|e]; simpl; [| discriminate].
  destruct (getitem (bad_data self) f) as [b|e]; simpl; [| discriminate].
  destruct (forallb isinstance_int_float g) eqn:Hn; simpl.
  { destruct (_calculate_numerical_probability self g b) as [p|e] eqn:Hp;
      simpl; [| discriminate].
    intros [= <-]. right. split; [reflexivity |].
    eexists. split; [| reflexivity]. right. exists g, b, p. tauto. }
  destruct (forallb isinstance_str g) eqn:Hs.
  { unfold _calculate_categorical_probability.
    destruct (chi2_contingency g b) as [p|e] eqn:Hp; simpl; [| discriminate].
    intros [= <-]. right. split; [reflexivity |].
    eexists. split; [| reflexivity]. right. exists g, b, p. tauto. }
  intros [= <-]. now left.
Qed.

Lemma bad_field_step f acc d :
  bad_field self f acc = Ok d ->
  (kept_bad self f = false /\ d = acc) \/
  (kept_bad self f = true /\ exists t, bad_entry f t /\ d = dict_set f t acc).
Proof.
  unfold bad_field, kept_bad, bad_entry, ignored, in_good.
  destruct (contains f (columns (good_data self))); simpl.
  { intros [= <-]. now left. }
  destruct (contains f (fields_to_ignore self)); simpl; intros [= <-];
    [now left |].
  right. split; [reflexivity |]. eauto.
Qed.

(** The two loops, one after the other. *)
Lemma probabilities_split d :
  _calculate_probabilities chi2_contingency self = Ok d ->
  exists d1,
    for_each (good_field chi2_contingency self) (columns (good_data self)) []
    = Ok d1 /\
    for_each (bad_field self) (columns (bad_data self)) d1 = Ok d.
Proof.
  unfold _calculate_probabilities.
  destruct (for_each (good_field chi2_contingency self)
              (columns (good_data self)) []) as [d1|e]; simpl;
    [| discriminate].
  intros H. now exists d1.
Qed.

(** The keys of the map: the kept reference fields and the kept
    candidate-only fields. *)
Lemma probabilities_keys d :
  _calculate_probabilities chi2_contingency self = Ok d ->
  forall f, In f (keys d) <->
    (In f (columns (good_data self)) /\ kept_good self f = true) \/
    (In f (columns (bad_data self)) /\ kept_bad self f = true).
Proof.
  intros H f. apply probabilities_split in H as [d1 [H1 H]].
  rewrite (set_loop_keys _ _ _ bad_field_step _ _ _ H f).
  rewrite (set_loop_keys _ _ _ good_field_step _ _ _ H1 f). simpl. tauto.
Qed.

Lemma probabilities_NoDup d :
  _calculate_probabilities chi2_contingency self = Ok d -> NoDup (keys d).
Proof.
  intros H. apply probabilities_split in H as [d1 [H1 H]].
  apply (set_loop_NoDup _ _ _ bad_field_step _ _ _ H).
  apply (set_loop_NoDup _ _ _ good_field_step _ _ _ H1). constructor.
Qed.

(** The value stored under a key. *)
Lemma probabilities_get d f t :
  _calculate_probabilities chi2_contingency self = Ok d ->
  dict_get f d = Some t ->
  (In f (columns (good_data self)) /\ kept_good self f = true
   /\ good_entry chi2_contingency self f t)
  \/ (In f (columns (bad_data self)) /\ kept_bad self f = true
      /\ t = ADDITIONAL_BAD_DATA).
Proof.
  intros H Hg. apply probabilities_split in H as [d1 [H1 H]].
  destruct (set_loop_get _ _ _ bad_field_step _ _ _ H _ _ Hg) as [Hg1 | Hb];
    [| now right].
  destruct (set_loop_get _ _ _ good_field_step _ _ _ H1 _ _ Hg1) as [Hg0 | Hgd];
    [discriminate | now left].
Qed.

(** The order of the keys, for frames with distinct column labels. *)
Lemma probabilities_order d :
  NoDup (columns (good_data self)) ->
  NoDup (columns (bad_data self)) ->
  _calculate_probabilities chi2_contingency self = Ok d ->
  keys d = expected_order self.
Proof.
  intros Ng Nb H. apply probabilities_split in H as [d1 [H1 H]].
  unfold expected_order.
  rewrite (set_loop_order _ _ _ bad_field_step _ d1 d Nb) with (2 := H).
  - f_equal.
    now rewrite (set_loop_order _ _ _ good_field_step _ [] d1 Ng) with (2 := H1).
  - intros f _ Hk Hin.
    apply (set_loop_keys _ _ _ good_field_step _ _ _ H1) in Hin.
    destruct Hin as [[] | [Hin _]].
    unfold kept_bad, in_good in Hk.
    apply contains_true in Hin. rewrite Hin in Hk. discriminate.
Qed.

End EngineFacts.

(** ** The loop of [run] *)

Section RunFacts.

Variable chi2_contingency : Series -> Series -> result float.
Variable self : ErrorAnalyzer.

Lemma run_item_Ok item acc tbl :
  run_item self item acc = Ok tbl ->
  tbl = acc ++ rows_of_item self item /\
  exists p a dt, snd item = Tuple3 p a dt.
Proof.
  destruct item as [f [l pr fl dt | p a dt]]; unfold run_item, rows_of_item;
    simpl; [discriminate |].
  destruct (contains f (fields_to_ignore self)); simpl; intros [= <-].
  - split; [now rewrite app_nil_r | eauto].
  - split; [reflexivity | eauto].
Qed.

Lemma run_loop_Ok d : forall acc tbl,
  for_each (run_item self) d acc = Ok tbl ->
  tbl = acc ++ flat_map (rows_of_item self) d /\
  Forall (fun item => exists p a dt, snd item = Tuple3 p a dt) d.
Proof.
  induction d as [|item d IH]; intros acc tbl H.
  - simpl in H. injection H as <-. simpl. now rewrite app_nil_r.
  - apply for_each_cons_Ok in H as [t1 [H1 H2]].
    apply run_item_Ok in H1 as [-> Hi].
    apply IH in H2 as [-> Hd]. simpl.
    split; [now rewrite app_assoc | now constructor].
Qed.

Lemma run_Ok tbl :
  run chi2_contingency self = Ok tbl ->
  exists d,
    _calculate_probabilities chi2_contingency self = Ok d /\
    tbl = flat_map (rows_of_item self) d /\
    Forall (fun item => exists p a dt, snd item = Tuple3 p a dt) d.
Proof.
  unfold run.
  destruct (_calculate_probabilities chi2_contingency self) as [d|e];
    simpl; [| discriminate].
  intros H. exists d. split; [reflexivity |].
  now apply run_loop_Ok in H.
Qed.

(** A 4-tuple anywhere in the map makes [run] raise. *)
Lemma run_loop_Tuple4 d f l p fl dt :
  In (f, Tuple4 l p fl dt) d ->
  forall acc tbl, for_each (run_item self) d acc <> Ok tbl.
Proof.
  intros Hin. apply for_each_raises with (a := (f, Tuple4 l p fl dt));
    [assumption |].
  intros s s'. simpl. discriminate.
Qed.

Lemma rows_of_item_field item r :
  In r (rows_of_item self item) ->
  field r = fst item /\ contains (fst item) (fields_to_ignore self) = false.
Proof.
  unfold rows_of_item. destruct (snd item) as [? ? ? ?|p a dt]; [intros [] |].
  destruct (contains (fst item) (fields_to_ignore self)); simpl;
    [intros [] |].
  intros [<- | []]. now split.
Qed.

Lemma filter_rows_of_item f k t :
  filter (fun r => String.eqb (field r) f) (rows_of_item self (k, t)) =
  if String.eqb k f then rows_of_item self (k, t) else [].
Proof.
  unfold rows_of_item. simpl. destruct t as [? ? ? ?|p a dt]; simpl.
  - now destruct (String.eqb k f).
  - destruct (contains k (fields_to_ignore self)); simpl;
      now destruct (String.eqb k f).
Qed.

(** The rows of one field, read off the map. *)
Lemma rows_for_flat_map f d :
  NoDup (keys d) ->
  rows_for f (flat_map (rows_of_item self) d) =
  match dict_get f d with
  | Some t => rows_of_item self (f, t)
  | None => []
  end.
Proof.
  unfold rows_for.
  induction d as [|[k t] d IH]; simpl; intros Hnd; [reflexivity |].
  inversion Hnd as [|? ? Hn Hd]; subst.
  rewrite filter_app, (IH Hd), filter_rows_of_item.
  destruct (String.eqb k f) eqn:E; [| reflexivity].
  apply String.eqb_eq in E. subst k.
  now rewrite (dict_get_None _ _ _ Hn), app_nil_r.
Qed.

End RunFacts.

(** ** Binary64 arithmetic

    [SpecFloat] computes a rounded result by shifting a mantissa and
    looking at the bits shifted out; the lemmas below relate that to
    [rne] and [round64], and then to the primitive operations through
    the specifications of [FloatAxioms]. *)

Section Float64.

#[local] Open Scope Z_scope.

Lemma pow2_pos n : 0 < 2 ^ n \/ n < 0.
Proof. destruct (Z_lt_le_dec n 0); [now right | left; now apply Z.pow_pos_nonneg]. Qed.

Lemma pow2_succ n : 0 <= n -> 2 ^ (n + 1) = 2 * 2 ^ n.
Proof. intros. rewrite Z.pow_add_r by lia. lia. Qed.

Lemma digits2_pos_bounds (p : positive) :
  2 ^ (Zpos (digits2_pos p) - 1) <= Zpos p < 2 ^ Zpos (digits2_pos p).
Proof.
  induction p as [p IH|p IH|]; simpl digits2_pos.
  - rewrite Pos2Z.inj_succ.
    replace (Z.succ (Zpos (digits2_pos p)) - 1) with ((Zpos (digits2_pos p) - 1) + 1) by lia.
    unfold Z.succ. rewrite !pow2_succ by lia. lia.
  - rewrite Pos2Z.inj_succ.
    replace (Z.succ (Zpos (digits2_pos p)) - 1) with ((Zpos (digits2_pos p) - 1) + 1) by lia.
    unfold Z.succ. rewrite !pow2_succ by lia. lia.
  - simpl. lia.
Qed.

Lemma bits_bounds n : 0 < n -> 2 ^ (bits n - 1) <= n < 2 ^ bits n.
Proof. destruct n; try lia. intros _. apply digits2_pos_bounds. Qed.

Lemma bits_nonneg n : 0 <= bits n.
Proof. destruct n; simpl; lia. Qed.

Lemma bits_unique n d : 0 < n -> 2 ^ (d - 1) <= n < 2 ^ d -> bits n = d.
Proof.
  intros Hn [Hl Hu]. pose proof (bits_bounds n Hn) as [Bl Bu].
  pose proof (bits_nonneg n).
  assert (0 <= d). { destruct (Z_lt_le_dec d 0); [|lia]. rewrite Z.pow_neg_r in Hu; lia. }
  destruct (Z.lt_trichotomy (bits n) d) as [L|[E|G]]; [|assumption|].
  - assert (2 ^ bits n <= 2 ^ (d - 1)) by (apply Z.pow_le_mono_r; lia). lia.
  - assert (2 ^ d <= 2 ^ (bits n - 1)) by (apply Z.pow_le_mono_r; lia). lia.
Qed.

Lemma bits_mono a b : 0 <= a <= b -> bits a <= bits b.
Proof.
  intros [Ha Hab]. destruct (Z.eq_dec a 0) as [->|Hne]; [apply bits_nonneg|].
  pose proof (bits_bounds a ltac:(lia)) as [Al Au].
  pose proof (bits_bounds b ltac:(lia)) as [Bl Bu].
  destruct (Z_lt_le_dec (bits b) (bits a)); [|lia].
  assert (2 ^ bits b <= 2 ^ (bits a - 1)).
  { apply Z.pow_le_mono_r; [lia|]. lia. }
  lia.
Qed.

Lemma bits_shift n k : 0 < n -> 0 <= k -> bits (n * 2 ^ k) = bits n + k.
Proof.
  intros Hn Hk. pose proof (bits_bounds n Hn) as [Bl Bu].
  assert (0 < 2 ^ k) by (apply Z.pow_pos_nonneg; lia).
  assert (1 <= bits n). { destruct n; simpl in *; lia. }
  apply bits_unique; [nia|].
  replace (bits n + k - 1) with ((bits n - 1) + k) by lia.
  rewrite !Z.pow_add_r by lia. split; nia.
Qed.

(** [rne] is within half a unit of the quotient. *)
Lemma rne_nearest m n : 0 <= n ->
  2 ^ (n + 1) * rne m n - 2 ^ n <= 2 * m <= 2 ^ (n + 1) * rne m n + 2 ^ n.
Proof.
  intros Hn. unfold rne.
  assert (Hp : 0 < 2 ^ n) by (apply Z.pow_pos_nonneg; lia).
  pose proof (Z.div_mod m (2 ^ n) ltac:(lia)) as Hdm.
  pose proof (Z.mod_pos_bound m (2 ^ n) Hp) as Hb.
  rewrite pow2_succ by lia.
  destruct (Z.compare_spec (2 * (m mod 2 ^ n)) (2 ^ n)) as [E|L|G].
  - destruct (Z.even (m / 2 ^ n)); nia.
  - nia.
  - nia.
Qed.

Lemma rne_mono m1 m2 n : 0 <= n -> m1 <= m2 -> rne m1 n <= rne m2 n.
Proof.
  intros Hn Hm.
  assert (Hp : 0 < 2 ^ n) by (apply Z.pow_pos_nonneg; lia).
  destruct (Z.eq_dec m1 m2) as [->|Hne]; [lia|].
  pose proof (rne_nearest m1 n Hn) as N1.
  pose proof (rne_nearest m2 n Hn) as N2.
  rewrite pow2_succ in N1, N2 by lia.
  destruct (Z_lt_le_dec (rne m2 n) (rne m1 n)); [|assumption].
  nia.
Qed.

Lemma compare_mul_r a b c : 0 < c -> (a * c ?= b * c) = (a ?= b).
Proof.
  intros Hc. destruct (Z.compare_spec a b) as [->|L|G].
  - apply Z.compare_refl.
  - apply Z.compare_lt_iff. nia.
  - apply Z.compare_gt_iff. nia.
Qed.

Lemma rne_scale m n k : 0 <= n -> 0 <= k -> rne (m * 2 ^ k) (n + k) = rne m n.
Proof.
  intros Hn Hk. unfold rne.
  assert (Hp : 0 < 2 ^ n) by (apply Z.pow_pos_nonneg; lia).
  assert (Hq : 0 < 2 ^ k) by (apply Z.pow_pos_nonneg; lia).
  rewrite Z.pow_add_r by lia.
  rewrite Z.div_mul_cancel_r by lia.
  rewrite Z.mul_mod_distr_r by lia.
  replace (2 * (m mod 2 ^ n * 2 ^ k)) with ((2 * (m mod 2 ^ n)) * 2 ^ k) by lia.
  rewrite compare_mul_r by lia. reflexivity.
Qed.

Lemma rne_0 m : rne m 0 = m.
Proof.
  unfold rne. simpl. rewrite Z.mod_1_r, Z.div_1_r. reflexivity.
Qed.

Lemma rne_upper n k : 0 <= k -> 0 <= n < 2 ^ (k + 53) -> rne n k <= 2 ^ 53.
Proof.
  intros Hk [Hn Hu]. pose proof (rne_nearest n k Hk) as [Nl _].
  assert (Hp : 0 < 2 ^ k) by (apply Z.pow_pos_nonneg; lia).
  rewrite pow2_succ in Nl by lia. rewrite Z.pow_add_r in Hu by lia.
  destruct (Z_lt_le_dec (2 ^ 53) (rne n k)); [| assumption]. nia.
Qed.

Lemma rne_lower n k : 0 <= k -> 2 ^ (k + 52) <= n -> 2 ^ 52 <= rne n k.
Proof.
  intros Hk Hl. pose proof (rne_nearest n k Hk) as [_ Nu].
  assert (Hp : 0 < 2 ^ k) by (apply Z.pow_pos_nonneg; lia).
  rewrite pow2_succ in Nu by lia. rewrite Z.pow_add_r in Hl by lia.
  destruct (Z_lt_le_dec (rne n k) (2 ^ 52)); [| assumption]. nia.
Qed.

Lemma rne_nonneg n k : 0 <= k -> 0 <= n -> 0 <= rne n k.
Proof.
  intros Hk Hn. pose proof (rne_mono 0 n k Hk Hn) as H.
  replace (rne 0 k) with 0 in H; [assumption |].
  unfold rne. rewrite Z.mod_0_l, Z.div_0_l by (apply Z.pow_nonzero; lia).
  assert (Hp : 0 < 2 ^ k) by (apply Z.pow_pos_nonneg; lia).
  destruct (Z.compare_spec (2 * 0) (2 ^ k)); try reflexivity; lia.
Qed.

(** Rounding to binary64 is monotone. *)
Lemma round64_mono a b : 0 <= a <= b -> round64 a <= round64 b.
Proof.
  intros [Ha Hab]. unfold round64.
  pose proof (bits_mono a b (conj Ha Hab)) as Hbits.
  set (ka := Z.max (bits a - 53) 0). set (kb := Z.max (bits b - 53) 0).
  assert (Hka : 0 <= ka) by lia. assert (Hkb : 0 <= kb) by lia.
  assert (Hpa : 0 < 2 ^ ka) by (apply Z.pow_pos_nonneg; lia).
  destruct (Z.eq_dec ka kb) as [E | NE].
  - rewrite <- E. apply Z.mul_le_mono_nonneg_r; [lia |].
    now apply rne_mono.
  - assert (Hlt : ka < kb) by lia.
    assert (Hb : 0 < b) by (destruct b; simpl in *; lia).
    assert (Hkb' : kb = bits b - 53) by lia.
    pose proof (bits_bounds b Hb) as [Bl _].
    assert (R2 : 2 ^ 52 <= rne b kb).
    { apply rne_lower; [assumption |].
      replace (kb + 52) with (bits b - 1) by lia. assumption. }
    assert (R1 : rne a ka <= 2 ^ 53).
    { apply rne_upper; [assumption |]. split; [assumption |].
      destruct (Z.eq_dec a 0) as [-> | Hne];
        [apply Z.pow_pos_nonneg; lia |].
      pose proof (bits_bounds a ltac:(lia)) as [_ Au].
      apply Z.lt_le_trans with (1 := Au).
      apply Z.pow_le_mono_r; lia. }
    apply Z.le_trans with (2 ^ 53 * 2 ^ ka).
    + apply Z.mul_le_mono_nonneg_r; lia.
    + apply Z.le_trans with (2 ^ 52 * 2 ^ kb).
      * rewrite <- !Z.pow_add_r by lia. apply Z.pow_le_mono_r; lia.
      * apply Z.mul_le_mono_nonneg_r; [| assumption].
        apply Z.pow_nonneg. lia.
Qed.

(** ** The shifts of [SpecFloat] *)


Lemma shr_1_shifted x n mrs :
  0 <= n -> shifted x n mrs -> shifted x (n + 1) (shr_1 mrs).
Proof.
  intros Hn [low [Hlow [Hx [Hs Hm]]]].
  destruct mrs as [m r s]. simpl in *.
  assert (Hp : 0 < 2 ^ n) by (apply Z.pow_pos_nonneg; lia).
  exists (b2z r * 2 ^ n + low).
  rewrite !pow2_succ by lia. rewrite pow2_succ in Hx by lia.
  assert (Hs' : (r || s)%bool = negb (b2z r * 2 ^ n + low =? 0)).
  { subst s. destruct r; cbn [b2z orb].
    - symmetry. apply negb_true_iff, Z.eqb_neq. lia.
    - now rewrite Z.mul_0_l, Z.add_0_l. }
  destruct m as [|[p|p|]|p]; try lia; unfold shr_1, shifted;
    cbn [shr_m shr_r shr_s]; cbn [b2z];
    (split; [destruct r; cbn [b2z]; lia |]);
    (split; [| split; [exact Hs' | lia]]).
  - lia.
  - rewrite Pos2Z.inj_xI in Hx. lia.
  - rewrite Pos2Z.inj_xO in Hx. lia.
  - lia.
Qed.

Lemma iter_pos_shifted x p : forall n mrs,
  0 <= n -> shifted x n mrs ->
  shifted x (n + Zpos p) (iter_pos shr_1 p mrs).
Proof.
  induction p as [p IH | p IH |]; intros n mrs Hn H; simpl iter_pos.
  - replace (n + Zpos p~1) with (((n + 1) + Zpos p) + Zpos p) by lia.
    apply IH; [lia |]. apply IH; [lia |]. now apply shr_1_shifted.
  - replace (n + Zpos p~0) with ((n + Zpos p) + Zpos p) by lia.
    apply IH; [lia |]. now apply IH.
  - now apply shr_1_shifted.
Qed.

Lemma shifted_0 m : 0 <= m ->
  shifted (2 * m) 0 {| shr_m := m; shr_r := false; shr_s := false |}.
Proof.
  intros Hm. exists 0. cbn [shr_m shr_r shr_s b2z].
  change (2 ^ (0 + 1)) with 2. change (2 ^ 0) with 1.
  repeat split; try lia.
Qed.

(** Shifting [m] right by [n] and rounding the record is [rne m n]. *)
Lemma shr_rne m e n :
  0 <= m -> 
  exists mrs,
    shr (shr_record_of_loc m loc_Exact) e n = (mrs, e + Z.max n 0) /\
    round_nearest_even (shr_m mrs) (loc_of_shr_record mrs)
    = rne m (Z.max n 0).
Proof.
  intros Hm. simpl shr_record_of_loc.
  assert (Hgen : forall k mrs, 0 <= k -> shifted (2 * m) k mrs ->
            round_nearest_even (shr_m mrs) (loc_of_shr_record mrs) = rne m k).
  { intros k [q r s] Hk [low [Hlow [Hx [Hs Hq]]]].
    cbn [shr_m shr_r shr_s] in *.
    assert (Hp : 0 < 2 ^ k) by (apply Z.pow_pos_nonneg; lia).
    rewrite pow2_succ in Hx by lia.
    assert (Hdiv : m / 2 ^ k = q /\ 2 * (m mod 2 ^ k) = b2z r * 2 ^ k + low).
    { assert (Hq' : m / 2 ^ k = q).
      { symmetry. apply Z.div_unique with (r := m - q * 2 ^ k); [| lia].
        left. destruct r; cbn [b2z] in *; lia. }
      split; [assumption |].
      pose proof (Z.div_mod m (2 ^ k) ltac:(lia)) as Hdm.
      rewrite Hq' in Hdm. destruct r; cbn [b2z] in *; lia. }
    destruct Hdiv as [Hq' Hmod]. unfold rne. rewrite Hq', Hmod.
    destruct r, s; cbn [b2z loc_of_shr_record round_nearest_even] in *.
    - assert (low <> 0) by (intros ->; discriminate).
      destruct (Z.compare_spec (1 * 2 ^ k + low) (2 ^ k)); try lia; try reflexivity.
    - assert (low = 0).
      { destruct (Z.eqb_spec low 0); [assumption | discriminate]. }
      subst low.
      destruct (Z.compare_spec (1 * 2 ^ k + 0) (2 ^ k)); try lia; try reflexivity.
    - destruct (Z.compare_spec (0 * 2 ^ k + low) (2 ^ k)); try lia; try reflexivity.
    - destruct (Z.compare_spec (0 * 2 ^ k + low) (2 ^ k)); try lia; try reflexivity. }
  destruct n as [| p | p]; simpl shr; simpl Z.max.
  - eexists. split; [f_equal; lia |]. apply Hgen; [lia |]. now apply shifted_0.
  - eexists. split; [reflexivity |].
    apply Hgen; [lia |].
    replace (Zpos p) with (0 + Zpos p) by lia.
    apply iter_pos_shifted; [lia |]. now apply shifted_0.
  - eexists. split; [f_equal; lia |]. apply Hgen; [lia |]. now apply shifted_0.
Qed.

Lemma fexp_eq x : fexp prec emax x = Z.max (x - 53) (-1074).
Proof. reflexivity. Qed.

Lemma shr_nonpos mrs e n : n <= 0 -> shr mrs e n = (mrs, e).
Proof. destruct n; [reflexivity | lia | reflexivity]. Qed.

Lemma round64_shift (M : positive) (e : Z) :
  -1074 <= e -> e <= fexp prec emax (Zpos (digits2_pos M) + e) ->
  round64 (Zpos M * 2 ^ (e + 1074)) =
  rne (Zpos M) (fexp prec emax (Zpos (digits2_pos M) + e) - e)
  * 2 ^ (fexp prec emax (Zpos (digits2_pos M) + e) + 1074).
Proof.
  intros He Hn. rewrite fexp_eq in *. unfold round64.
  rewrite bits_shift by lia. change (bits (Zpos M)) with (Zpos (digits2_pos M)).
  set (d := Zpos (digits2_pos M)) in *.
  replace (Z.max (d + (e + 1074) - 53) 0)
    with ((Z.max (d + e - 53) (-1074) - e) + (e + 1074)) by lia.
  rewrite rne_scale by lia.
  f_equal. f_equal. lia.
Qed.

(** Rounding a positive integer mantissa: the result is a valid binary64,
    the nearest to [M * 2^e]. *)
Lemma binary_round_aux_spec (M : positive) (e : Z) :
  -1074 <= e ->
  e <= fexp prec emax (Zpos (digits2_pos M) + e) ->
  Zpos (digits2_pos M) + e <= 1023 ->
  let r := binary_round_aux prec emax false (Zpos M) e loc_Exact in
  nonneg_finite r = true /\ valid_binary r = true /\
  scaled r = round64 (Zpos M * 2 ^ (e + 1074)).
Proof.
  intros He Hn Hd r. subst r.
  rewrite (round64_shift M e He Hn).
  pose proof (digits2_pos_bounds M) as [Ml Mu].
  unfold binary_round_aux, shr_fexp. cbn [Zdigits2].
  set (d := Zpos (digits2_pos M)) in *.
  set (f := fexp prec emax (d + e)) in *.
  assert (Hf : f = Z.max (d + e - 53) (-1074)) by reflexivity.
  destruct (shr_rne (Zpos M) e (f - e) ltac:(lia)) as [mrs [Hshr Hrne]].
  rewrite Hshr, Hrne.
  replace (Z.max (f - e) 0) with (f - e) by lia.
  replace (e + (f - e)) with f by lia.
  set (m1 := rne (Zpos M) (f - e)).
  assert (H0 : 0 <= m1) by (apply rne_nonneg; lia).
  assert (Hup : m1 <= 2 ^ 53).
  { apply rne_upper; [lia |]. split; [lia |].
    apply Z.lt_le_trans with (1 := Mu). apply Z.pow_le_mono_r; lia. }
  assert (Hlow : -1074 < f -> 2 ^ 52 <= m1).
  { intros Hnorm. apply rne_lower; [lia |].
    apply Z.le_trans with (2 := Ml). apply Z.pow_le_mono_r; lia. }
  destruct (Z.eq_dec m1 (2 ^ 53)) as [E | NE].
  - change (2 ^ 53) with 9007199254740992 in E. rewrite E.
    assert (Hone : fexp prec emax (Zdigits2 9007199254740992 + f) - f = 1).
    { pose proof (fexp_eq (Zdigits2 9007199254740992 + f)) as Hx.
      change (Zdigits2 9007199254740992) with 54 in Hx |- *. lia. }
    rewrite Hone.
    cbn -[Z.pow Z.leb Z.sub Z.add Z.mul bounded].
    change (emax - prec) with 971.
    destruct (Z.leb_spec (f + 1) 971) as [L | G]; [| lia].
    cbn [nonneg_finite SpecFloat.valid_binary scaled].
    split; [reflexivity |]. split.
    + unfold bounded, canonical_mantissa.
      pose proof (fexp_eq (Zpos (digits2_pos 4503599627370496) + (f + 1)))
        as Hx.
      change (Zpos (digits2_pos 4503599627370496)) with 53 in Hx |- *.
      change (emax - prec) with 971.
      apply andb_true_iff. split; [apply Z.eqb_eq | apply Z.leb_le]; lia.
    + replace (f + 1 + 1074) with ((f + 1074) + 1) by lia.
      rewrite pow2_succ by lia. change (2 ^ 53) with 9007199254740992. lia.
  - assert (Hlt : m1 < 2 ^ 53) by lia.
    assert (Hbits : 0 < m1 -> bits m1 <= 53 /\ (-1074 < f -> bits m1 = 53)).
    { intros Hpos. pose proof (bits_bounds m1 Hpos) as [Bl Bu]. split.
      - destruct (Z_lt_le_dec 53 (bits m1)); [| lia].
        assert (2 ^ 53 <= 2 ^ (bits m1 - 1))
          by (apply Z.pow_le_mono_r; lia). lia.
      - intros Hnorm. apply bits_unique; [assumption |].
        specialize (Hlow Hnorm). simpl Z.sub. lia. }
    rewrite shr_nonpos.
    2:{ rewrite fexp_eq. destruct (Z.eq_dec m1 0) as [-> | Hne].
        - simpl Zdigits2. lia.
        - change (Zdigits2 m1) with (bits m1).
          destruct (Hbits ltac:(lia)) as [Hb _]. lia. }
    cbn [shr_record_of_loc shr_m].
    destruct m1 as [| p1 | p1] eqn:Em1; [| | lia].
    + cbn [nonneg_finite SpecFloat.valid_binary scaled]. repeat split; lia.
    + change (emax - prec) with 971.
      destruct (Z.leb_spec f 971) as [L | G]; [| lia].
      cbn [nonneg_finite SpecFloat.valid_binary scaled].
      split; [reflexivity |]. split; [| reflexivity].
      unfold bounded, canonical_mantissa. rewrite fexp_eq.
      change (emax - prec) with 971.
      destruct (Hbits ltac:(lia)) as [Hb Hb'].
      change (bits (Zpos p1)) with (Zpos (digits2_pos p1)) in Hb, Hb'.
      apply andb_true_iff. split; [apply Z.eqb_eq | apply Z.leb_le]; lia.
Qed.

(** ** Valid floats and their order *)

Lemma valid_finite s m e :
  valid_binary (S754_finite s m e) = true ->
  -1074 <= e <= 971 /\ Zpos (digits2_pos m) <= 53 /\
  (-1074 < e -> Zpos (digits2_pos m) = 53).
Proof.
  cbn [SpecFloat.valid_binary]. unfold bounded, canonical_mantissa.
  intros H. apply andb_true_iff in H as [Hc Hb].
  apply Z.eqb_eq in Hc. apply Z.leb_le in Hb.
  rewrite fexp_eq in Hc. change (emax - prec) with 971 in Hb. lia.
Qed.

Lemma scaled_pos m e :
  valid_binary (S754_finite false m e) = true ->
  0 < scaled (S754_finite false m e).
Proof.
  intros H. apply valid_finite in H as [He _]. cbn [scaled].
  assert (0 < 2 ^ (e + 1074)) by (apply Z.pow_pos_nonneg; lia). lia.
Qed.

Lemma scaled_nonneg x : nonneg_finite x = true -> valid_binary x = true ->
  0 <= scaled x.
Proof.
  destruct x as [s | s | | [|] m e]; cbn [scaled]; lia.
Qed.

Lemma scaled_lt_exp m1 e1 m2 e2 :
  valid_binary (S754_finite false m1 e1) = true ->
  valid_binary (S754_finite false m2 e2) = true ->
  e1 < e2 ->
  scaled (S754_finite false m1 e1) < scaled (S754_finite false m2 e2).
Proof.
  intros H1 H2 He. apply valid_finite in H1 as [He1 [Hd1 _]].
  apply valid_finite in H2 as [He2 [_ Hd2]]. specialize (Hd2 ltac:(lia)).
  cbn [scaled].
  pose proof (digits2_pos_bounds m1) as [_ U1].
  pose proof (digits2_pos_bounds m2) as [L2 _]. rewrite Hd2 in L2.
  assert (U1' : Zpos m1 < 2 ^ 53).
  { apply Z.lt_le_trans with (1 := U1). apply Z.pow_le_mono_r; lia. }
  assert (P1 : 0 < 2 ^ (e1 + 1074)) by (apply Z.pow_pos_nonneg; lia).
  assert (P2 : 2 ^ (e2 + 1074) = 2 ^ (e2 - e1 - 1) * (2 * 2 ^ (e1 + 1074))).
  { rewrite <- pow2_succ, <- Z.pow_add_r by lia. f_equal. lia. }
  assert (P3 : 1 <= 2 ^ (e2 - e1 - 1))
    by (apply (Z.pow_le_mono_r 2 0); lia).
  rewrite P2. change (2 ^ 53) with (2 * 2 ^ 52) in U1'.
  change (53 - 1) with 52 in L2. nia.
Qed.

(** The order of non-negative valid floats is the order of their scaled
    integers. *)
Lemma SFcompare_scaled x y :
  nonneg_finite x = true -> nonneg_finite y = true ->
  valid_binary x = true -> valid_binary y = true ->
  SFcompare x y = Some (scaled x ?= scaled y).
Proof.
  destruct x as [sx | sx | | [|] mx ex]; try discriminate;
    destruct y as [sy | sy | | [|] my ey]; try discriminate;
    intros _ _ Hx Hy.
  - reflexivity.
  - pose proof (scaled_pos my ey Hy) as Hp. cbn [SFcompare].
    f_equal. symmetry. apply Z.compare_lt_iff. cbn [scaled] in *. lia.
  - pose proof (scaled_pos mx ex Hx) as Hp. cbn [SFcompare].
    f_equal. symmetry. apply Z.compare_gt_iff. cbn [scaled] in *. lia.
  - cbn [SFcompare]. f_equal.
    destruct (Z.compare_spec ex ey) as [E | L | G].
    + subst ey. cbn [scaled]. apply valid_finite in Hx as [He _].
      rewrite compare_mul_r by (apply Z.pow_pos_nonneg; lia).
      reflexivity.
    + symmetry. apply Z.compare_lt_iff. now apply scaled_lt_exp.
    + symmetry. apply Z.compare_gt_iff. now apply scaled_lt_exp.
Qed.

Lemma SFleb_scaled x y :
  nonneg_finite x = true -> nonneg_finite y = true ->
  valid_binary x = true -> valid_binary y = true ->
  SFleb x y = true <-> scaled x <= scaled y.
Proof.
  intros Nx Ny Vx Vy. unfold SFleb. rewrite SFcompare_scaled by assumption.
  destruct (Z.compare_spec (scaled x) (scaled y)); split; intros;
    try reflexivity; try lia; discriminate.
Qed.

Lemma SFltb_scaled x y :
  nonneg_finite x = true -> nonneg_finite y = true ->
  valid_binary x = true -> valid_binary y = true ->
  SFltb x y = true <-> scaled x < scaled y.
Proof.
  intros Nx Ny Vx Vy. unfold SFltb. rewrite SFcompare_scaled by assumption.
  destruct (Z.compare_spec (scaled x) (scaled y)); split; intros;
    try reflexivity; try lia; discriminate.
Qed.

(** ** Alignment and normalisation *)

Lemma iter_xO_value m d : Zpos (Pos.iter xO m d) = Zpos m * 2 ^ Zpos d.
Proof.
  induction d as [| d IH] using Pos.peano_ind.
  - simpl. lia.
  - rewrite Pos.iter_succ, Pos2Z.inj_xO, IH, Pos2Z.inj_succ.
    unfold Z.succ. rewrite pow2_succ by lia. lia.
Qed.

Lemma shl_align_spec m e e' :
  snd (shl_align m e e') = Z.min e e' /\
  Zpos (fst (shl_align m e e')) = Zpos m * 2 ^ (e - Z.min e e').
Proof.
  unfold shl_align. destruct (e' - e) as [| p | p] eqn:E; cbn [fst snd].
  - replace (e - Z.min e e') with 0 by lia. split; lia.
  - replace (e - Z.min e e') with 0 by lia. split; lia.
  - rewrite iter_xO_value. replace (e - Z.min e e') with (Zpos p) by lia.
    split; lia.
Qed.

Lemma bits_le n k : 0 <= k -> 0 < n -> n < 2 ^ k -> bits n <= k.
Proof.
  intros Hk Hn Hu. pose proof (bits_bounds n Hn) as [Bl _].
  destruct (Z_lt_le_dec k (bits n)); [| lia].
  assert (2 ^ k <= 2 ^ (bits n - 1)) by (apply Z.pow_le_mono_r; lia). lia.
Qed.

Lemma bits_ge n k : 0 <= k -> 2 ^ k <= n -> k + 1 <= bits n.
Proof.
  intros Hk Hl.
  assert (Hn : 0 < n).
  { assert (0 < 2 ^ k) by (apply Z.pow_pos_nonneg; lia). lia. }
  pose proof (bits_bounds n Hn) as [_ Bu]. pose proof (bits_nonneg n).
  destruct (Z_lt_le_dec (bits n) (k + 1)); [| lia].
  assert (2 ^ bits n <= 2 ^ k) by (apply Z.pow_le_mono_r; lia). lia.
Qed.

(** [binary_round] of a positive mantissa. *)
Lemma binary_round_spec (M : positive) (e : Z) :
  -1074 <= e -> Zpos M * 2 ^ (e + 1074) < 2 ^ 2097 ->
  let r := binary_round prec emax false M e in
  nonneg_finite r = true /\ valid_binary r = true /\
  scaled r = round64 (Zpos M * 2 ^ (e + 1074)).
Proof.
  intros He Hb r. subst r. unfold binary_round.
  set (f := fexp prec emax (Zpos (digits2_pos M) + e)).
  assert (Hf : f = Z.max (Zpos (digits2_pos M) + e - 53) (-1074))
    by reflexivity.
  destruct (shl_align_spec M e f) as [Hs Hm].
  destruct (shl_align M e f) as [mz ez]. cbn [fst snd] in Hs, Hm.
  assert (Hval : Zpos mz * 2 ^ (ez + 1074) = Zpos M * 2 ^ (e + 1074)).
  { rewrite Hm, <- Z.mul_assoc, <- Z.pow_add_r by lia. do 2 f_equal. lia. }
  assert (Hdig : Zpos (digits2_pos mz) + ez = Zpos (digits2_pos M) + e).
  { change (Zpos (digits2_pos mz)) with (bits (Zpos mz)).
    rewrite Hm, bits_shift by lia.
    change (bits (Zpos M)) with (Zpos (digits2_pos M)). lia. }
  rewrite <- Hval. apply binary_round_aux_spec.
  - lia.
  - rewrite Hdig. fold f. lia.
  - rewrite Hdig.
    assert (bits (Zpos M * 2 ^ (e + 1074)) <= 2097)
      by (apply bits_le; [lia | | assumption];
          assert (0 < 2 ^ (e + 1074)) by (apply Z.pow_pos_nonneg; lia); lia).
    rewrite bits_shift in H by lia.
    change (bits (Zpos M)) with (Zpos (digits2_pos M)) in H. lia.
Qed.

Lemma round64_0 : round64 0 = 0.
Proof. reflexivity. Qed.

(** [binary_normalize] of a natural number mantissa. *)
Lemma binary_normalize_spec (m e : Z) :
  0 <= m -> -1074 <= e -> m * 2 ^ (e + 1074) < 2 ^ 2097 ->
  let r := binary_normalize prec emax m e false in
  nonneg_finite r = true /\ valid_binary r = true /\
  scaled r = round64 (m * 2 ^ (e + 1074)).
Proof.
  intros Hm He Hb. destruct m as [| M | M]; [| | lia].
  - cbn. repeat split.
  - now apply binary_round_spec.
Qed.

(** A valid float rounds to itself. *)
Lemma round64_valid m e :
  valid_binary (S754_finite false m e) = true ->
  round64 (Zpos m * 2 ^ (e + 1074)) = Zpos m * 2 ^ (e + 1074).
Proof.
  intros H. apply valid_finite in H as [He [Hd Hn]]. unfold round64.
  rewrite bits_shift by lia. change (bits (Zpos m)) with (Zpos (digits2_pos m)).
  replace (Z.max (Zpos (digits2_pos m) + (e + 1074) - 53) 0)
    with (0 + (e + 1074)) by lia.
  rewrite rne_scale by lia. now rewrite rne_0.
Qed.

Lemma scaled_bound x :
  nonneg_finite x = true -> valid_binary x = true -> scaled x < 2 ^ 2098.
Proof.
  destruct x as [s | s | | [|] m e]; try discriminate; intros _ H;
    cbn [scaled]; try reflexivity.
  apply valid_finite in H as [He [Hd _]].
  pose proof (digits2_pos_bounds m) as [_ U].
  assert (U' : Zpos m < 2 ^ 53).
  { apply Z.lt_le_trans with (1 := U). apply Z.pow_le_mono_r; lia. }
  assert (P : 0 < 2 ^ (e + 1074)) by (apply Z.pow_pos_nonneg; lia).
  assert (Q : 2 ^ (e + 1074) <= 2 ^ 2045) by (apply Z.pow_le_mono_r; lia).
  change (2 ^ 2098) with (2 ^ 53 * 2 ^ 2045). nia.
Qed.

(** ** Subtraction and multiplication *)

(** [x - y] for [0 <= y <= x]: the exact difference, rounded. *)
Lemma SFsub_spec x y :
  nonneg_finite x = true -> nonneg_finite y = true ->
  valid_binary x = true -> valid_binary y = true ->
  scaled y <= scaled x -> scaled x < 2 ^ 2097 ->
  let r := SFsub prec emax x y in
  nonneg_finite r = true /\ valid_binary r = true /\
  scaled r = round64 (scaled x - scaled y).
Proof.
  intros Nx Ny Vx Vy Hle Hb.
  destruct x as [sx | sx | | [|] mx ex]; try discriminate;
    destruct y as [sy | sy | | [|] my ey]; try discriminate.
  - destruct sx, sy; cbn; repeat split.
  - pose proof (scaled_pos my ey Vy). cbn [scaled] in *. lia.
  - cbn [SFsub]. rewrite Z.sub_0_r. cbn [scaled].
    rewrite (round64_valid mx ex Vx). now repeat split.
  - cbn [SFsub cond_Zopp].
    pose proof (valid_finite _ _ _ Vx) as [Hex _].
    pose proof (valid_finite _ _ _ Vy) as [Hey _].
    set (ez := Z.min ex ey).
    destruct (shl_align_spec mx ex ez) as [_ Ha].
    destruct (shl_align_spec my ey ez) as [_ Hb'].
    rewrite Ha, Hb'.
    replace (Z.min ex ez) with ez by lia.
    replace (Z.min ey ez) with ez by lia.
    set (D := Zpos mx * 2 ^ (ex - ez) - Zpos my * 2 ^ (ey - ez)).
    assert (Pz : 0 < 2 ^ (ez + 1074)) by (apply Z.pow_pos_nonneg; lia).
    assert (HD : D * 2 ^ (ez + 1074) =
                 scaled (S754_finite false mx ex)
                 - scaled (S754_finite false my ey)).
    { unfold D. cbn [scaled]. rewrite Z.mul_sub_distr_r.
      rewrite <- !Z.mul_assoc, <- !Z.pow_add_r by lia.
      do 3 f_equal; lia. }
    rewrite <- HD. apply binary_normalize_spec.
    + nia.
    + lia.
    + rewrite HD. cbn [scaled] in *.
      assert (0 < Zpos my * 2 ^ (ey + 1074)).
      { apply Z.mul_pos_pos; [lia | apply Z.pow_pos_nonneg; lia]. }
      lia.
Qed.

(** [x * 100] for [1/2 <= x <= 1]. *)
Lemma SFmul_hundred_spec x :
  nonneg_finite x = true -> valid_binary x = true ->
  2 ^ 1073 <= scaled x <= 2 ^ 1074 ->
  let r := SFmul prec emax x hundred_sf in
  nonneg_finite r = true /\ valid_binary r = true /\
  scaled r = round64 (100 * scaled x).
Proof.
  intros Nx Vx [Hl Hu].
  destruct x as [sx | sx | | [|] mx ex]; try discriminate.
  - cbn [scaled] in Hl. exfalso. revert Hl. apply Z.lt_nge. reflexivity.
  - pose proof (valid_finite _ _ _ Vx) as [Hex [Hd Hn]].
    cbn [scaled] in Hl, Hu.
    assert (P : 0 < 2 ^ (ex + 1074)) by (apply Z.pow_pos_nonneg; lia).
    assert (Hb1 : 1074 <= bits (Zpos mx * 2 ^ (ex + 1074))).
    { apply (bits_ge _ 1073); [lia | assumption]. }
    assert (Hb2 : bits (Zpos mx * 2 ^ (ex + 1074)) <= 1075).
    { apply bits_le; [lia | lia |].
      apply Z.le_lt_trans with (1 := Hu). reflexivity. }
    rewrite bits_shift in Hb1, Hb2 by lia.
    change (bits (Zpos mx)) with (Zpos (digits2_pos mx)) in Hb1, Hb2.
    assert (Hd53 : Zpos (digits2_pos mx) = 53) by lia.
    assert (Hrange : -53 <= ex <= -52) by (clear - Hb1 Hb2 Hd53; lia).
    pose proof (digits2_pos_bounds mx) as [Ml Mu]. rewrite Hd53 in Ml, Mu.
    change (53 - 1) with 52 in Ml.
    unfold hundred_sf. cbn [SFmul xorb scaled].
    rewrite Pos2Z.inj_mul.
    assert (Hval : Zpos mx * 7036874417766400 * 2 ^ (ex + -46 + 1074)
                   = 100 * (Zpos mx * 2 ^ (ex + 1074))).
    { replace (ex + 1074) with ((ex + -46 + 1074) + 46) by lia.
      rewrite (Z.pow_add_r 2 (ex + -46 + 1074) 46) by (clear - Hrange; lia).
      change (2 ^ 46) with 70368744177664. ring. }
    rewrite <- Hval. rewrite <- Pos2Z.inj_mul.
    apply binary_round_aux_spec.
    + lia.
    + rewrite fexp_eq.
      assert (105 <= bits (Zpos (mx * 7036874417766400))).
      { apply (bits_ge _ 104); [lia |]. rewrite Pos2Z.inj_mul.
        change (2 ^ 104) with (2 ^ 52 * 2 ^ 52).
        apply Z.mul_le_mono_nonneg; [| assumption | |]; try reflexivity.
        - apply Z.pow_nonneg. lia.
        - apply Z.pow_nonneg. lia.
        - intros H; discriminate H. }
      change (bits (Zpos (mx * 7036874417766400)))
        with (Zpos (digits2_pos (mx * 7036874417766400))) in H. lia.
    + assert (bits (Zpos (mx * 7036874417766400)) <= 106).
      { apply bits_le; [lia | lia |]. rewrite Pos2Z.inj_mul.
        change (2 ^ 106) with (2 ^ 53 * 2 ^ 53).
        apply Z.mul_lt_mono_nonneg; [lia | assumption | lia | reflexivity]. }
      change (bits (Zpos (mx * 7036874417766400)))
        with (Zpos (digits2_pos (mx * 7036874417766400))) in H. lia.
Qed.


(** ** Primitive floats *)

Lemma leb_nonneg (p c : float) :
  PrimFloat.leb 0 p = true -> PrimFloat.leb p c = true ->
  nonneg_finite (Prim2SF c) = true ->
  nonneg_finite (Prim2SF p) = true.
Proof.
  rewrite !leb_spec. change (Prim2SF 0) with (S754_zero false).
  destruct (Prim2SF p) as [s | [|] | | [|] m e]; try discriminate;
    try reflexivity.
  intros _. destruct (Prim2SF c) as [s | [|] | | [|] m e]; discriminate.
Qed.

Lemma leb_scaled (p q : float) :
  nonneg_finite (Prim2SF p) = true -> nonneg_finite (Prim2SF q) = true ->
  PrimFloat.leb p q = true <-> scaled (Prim2SF p) <= scaled (Prim2SF q).
Proof.
  intros Np Nq. rewrite leb_spec.
  apply SFleb_scaled; auto using Prim2SF_valid.
Qed.

Lemma ltb_scaled (p q : float) :
  nonneg_finite (Prim2SF p) = true -> nonneg_finite (Prim2SF q) = true ->
  PrimFloat.ltb p q = true <-> scaled (Prim2SF p) < scaled (Prim2SF q).
Proof.
  intros Np Nq. rewrite ltb_spec.
  apply SFltb_scaled; auto using Prim2SF_valid.
Qed.

(** [1 - p] for [0 <= p <= 1]. *)
Lemma sub_one_scaled (p : float) :
  nonneg_finite (Prim2SF p) = true ->
  scaled (Prim2SF p) <= 2 ^ 1074 ->
  nonneg_finite (Prim2SF (1 - p)) = true /\
  scaled (Prim2SF (1 - p)) = round64 (2 ^ 1074 - scaled (Prim2SF p)).
Proof.
  intros Np Hle. rewrite sub_spec. unfold SF64sub.
  destruct (SFsub_spec (Prim2SF 1) (Prim2SF p)) as [N [_ S]];
    auto using Prim2SF_valid; reflexivity.
Qed.

Lemma round64_one : round64 (2 ^ 1074) = 2 ^ 1074.
Proof. vm_compute. reflexivity. Qed.

Lemma round64_one_minus_alpha :
  (2 ^ 1073 <=? round64 (2 ^ 1074 - scaled (Prim2SF alpha))) = true.
Proof. vm_compute. reflexivity. Qed.

Lemma scaled_alpha_le_one : (scaled (Prim2SF alpha) <=? 2 ^ 1074) = true.
Proof. vm_compute. reflexivity. Qed.

(** The score [(1 - p) * 100] of a p-value in [[0, alpha]], as a rounded
    integer expression. *)
Lemma score_scaled (p : float) :
  PrimFloat.leb 0 p = true -> PrimFloat.leb p alpha = true ->
  nonneg_finite (Prim2SF ((1 - p) * 100)) = true /\
  scaled (Prim2SF ((1 - p) * 100))
  = round64 (100 * round64 (2 ^ 1074 - scaled (Prim2SF p))).
Proof.
  intros H0 Ha.
  assert (Np : nonneg_finite (Prim2SF p) = true)
    by (apply (leb_nonneg p alpha); auto).
  assert (Hpa : scaled (Prim2SF p) <= scaled (Prim2SF alpha))
    by (apply leb_scaled; auto).
  assert (Hp0 : 0 <= scaled (Prim2SF p))
    by (apply scaled_nonneg; auto using Prim2SF_valid).
  pose proof (proj1 (Z.leb_le _ _) scaled_alpha_le_one) as Ha1.
  destruct (sub_one_scaled p Np ltac:(lia)) as [Nu Su].
  assert (Hu : 2 ^ 1073 <= scaled (Prim2SF (1 - p)) <= 2 ^ 1074).
  { rewrite Su. split.
    - apply Z.le_trans with (1 := proj1 (Z.leb_le _ _) round64_one_minus_alpha).
      apply round64_mono. lia.
    - rewrite <- round64_one at 2. apply round64_mono. lia. }
  rewrite mul_spec. unfold SF64mul. change (Prim2SF 100) with hundred_sf.
  destruct (SFmul_hundred_spec (Prim2SF (1 - p))) as [N [_ S]];
    auto using Prim2SF_valid.
  rewrite <- Su. auto.
Qed.

(** The score is non-increasing in the p-value. *)
Lemma score_antitone (pa pb : float) :
  PrimFloat.leb 0 pa = true -> PrimFloat.leb pa pb = true ->
  PrimFloat.leb pb alpha = true ->
  PrimFloat.leb ((1 - pb) * 100) ((1 - pa) * 100) = true.
Proof.
  intros H0 Hab Hb.
  assert (Nb : nonneg_finite (Prim2SF pb) = true).
  { rewrite leb_spec in Hb, Hab, H0.
    change (Prim2SF 0) with (S754_zero false) in H0.
    change (Prim2SF alpha) with (S754_finite false 7205759403792794 (-57)) in Hb.
    destruct (Prim2SF pb) as [s | [|] | | [|] m e]; try discriminate;
      try reflexivity;
      destruct (Prim2SF pa) as [s' | [|] | | [|] m' e']; discriminate. }
  assert (Na : nonneg_finite (Prim2SF pa) = true)
    by (apply (leb_nonneg pa pb); auto).
  assert (H0b : PrimFloat.leb 0 pb = true).
  { apply leb_scaled; [reflexivity | assumption |].
    change (scaled (Prim2SF 0)) with 0.
    apply scaled_nonneg; auto using Prim2SF_valid. }
  assert (Haa : PrimFloat.leb pa alpha = true).
  { apply leb_scaled; [assumption | reflexivity |].
    apply Z.le_trans with (scaled (Prim2SF pb)); apply leb_scaled; auto. }
  destruct (score_scaled pa H0 Haa) as [Nsa Ssa].
  destruct (score_scaled pb H0b Hb) as [Nsb Ssb].
  apply leb_scaled; [assumption | assumption |].
  rewrite Ssa, Ssb.
  assert (Hle : scaled (Prim2SF pa) <= scaled (Prim2SF pb))
    by (apply leb_scaled; auto).
  assert (Hp0 : 0 <= scaled (Prim2SF pa))
    by (apply scaled_nonneg; auto using Prim2SF_valid).
  pose proof (proj1 (Z.leb_le _ _) scaled_alpha_le_one) as Ha1.
  assert (Hpb : scaled (Prim2SF pb) <= scaled (Prim2SF alpha))
    by (apply leb_scaled; auto).
  assert (Hr0 : 0 <= round64 (2 ^ 1074 - scaled (Prim2SF pb))).
  { change 0 with (round64 0). apply round64_mono. lia. }
  apply round64_mono. split; [lia |].
  apply Z.mul_le_mono_nonneg_l; [lia |].
  apply round64_mono. lia.
Qed.

Lemma score_at_zero : PrimFloat.eqb ((1 - 0) * 100) 100 = true.
Proof. reflexivity. Qed.

Lemma score_at_alpha : PrimFloat.eqb ((1 - alpha) * 100) 95 = true.
Proof. reflexivity. Qed.

(** A significant p-value scores between 95 and 100. *)
Lemma score_bounds (p : float) :
  PrimFloat.leb 0 p = true -> PrimFloat.leb p alpha = true ->
  PrimFloat.leb 95 ((1 - p) * 100) = true /\
  PrimFloat.leb ((1 - p) * 100) 100 = true.
Proof.
  intros H0 Ha. split.
  - change 95%float with ((1 - alpha) * 100)%float.
    apply score_antitone; auto.
  - change 100%float with ((1 - 0) * 100)%float at 2.
    apply score_antitone; auto.
Qed.

End Float64.

(** ** The result table *)

Section Table.

Variable chi2_contingency : Series -> Series -> result float.
Variable self : ErrorAnalyzer.

(** A reference-only field that is not ignored is stored as the 4-tuple
    [MISSING_BAD_DATA]. *)
Lemma missing_entry f d :
  in_good self f = true -> in_bad self f = false -> ignored self f = false ->
  _calculate_probabilities chi2_contingency self = Ok d ->
  dict_get f d = Some MISSING_BAD_DATA.
Proof.
  intros Hg Hb Hi Hd.
  assert (Hk : kept_good self f = true)
    by (unfold kept_good; now rewrite Hi, Hb).
  assert (Hin : In f (keys d)).
  { apply (probabilities_keys _ _ _ Hd). left.
    split; [now apply contains_true | assumption]. }
  destruct (dict_get_keys _ _ _ Hin) as [t Ht]. rewrite Ht. f_equal.
  destruct (probabilities_get _ _ _ _ _ Hd Ht)
    as [[_ [_ [[_ ->] | [g [b [p [_ [Hgb _]]]]]]]] | [_ [Hkb _]]].
  - reflexivity.
  - apply getitem_Ok_In, contains_true in Hgb.
    unfold in_bad in Hb. congruence.
  - unfold kept_bad in Hkb. rewrite Hg in Hkb. discriminate.
Qed.

(** A candidate-only field that is not ignored is stored as the 4-tuple
    [ADDITIONAL_BAD_DATA]. *)
Lemma additional_entry f d :
  in_good self f = false -> in_bad self f = true -> ignored self f = false ->
  _calculate_probabilities chi2_contingency self = Ok d ->
  dict_get f d = Some ADDITIONAL_BAD_DATA.
Proof.
  intros Hg Hb Hi Hd.
  assert (Hk : kept_bad self f = true)
    by (unfold kept_bad; now rewrite Hi, Hg).
  assert (Hin : In f (keys d)).
  { apply (probabilities_keys _ _ _ Hd). right.
    split; [now apply contains_true | assumption]. }
  destruct (dict_get_keys _ _ _ Hin) as [t Ht]. rewrite Ht. f_equal.
  destruct (probabilities_get _ _ _ _ _ Hd Ht)
    as [[Hin' _] | [_ [_ ->]]]; [| reflexivity].
  apply contains_true in Hin'. unfold in_good in Hg. congruence.
Qed.

(** With a drift field that is not ignored, [run] returns no table. *)
Lemma run_fails_on_drift f :
  in_good self f <> in_bad self f -> ignored self f = false ->
  forall tbl, run chi2_contingency self <> Ok tbl.
Proof.
  intros Hne Hi tbl H. unfold run in H.
  destruct (_calculate_probabilities chi2_contingency self) as [d|e] eqn:Hd;
    simpl in H; [| discriminate].
  assert (Hin : exists l p fl dt, In (f, Tuple4 l p fl dt) d).
  { destruct (in_good self f) eqn:Hg, (in_bad self f) eqn:Hb;
      try congruence.
    - do 4 eexists. apply dict_get_Some_In.
      now apply (missing_entry f d).
    - do 4 eexists. apply dict_get_Some_In.
      now apply (additional_entry f d). }
  destruct Hin as [l [p [fl [dt Hin]]]].
  now apply (run_loop_Tuple4 self d f l p fl dt Hin [] tbl).
Qed.

(** A shared, classifiable field that is not ignored is stored as a
    3-tuple holding the p-value of the matching test. *)
Lemma shared_entry f g d :
  getitem (good_data self) f = Ok g ->
  in_bad self f = true -> ignored self f = false ->
  forallb isinstance_int_float g || forallb isinstance_str g = true ->
  _calculate_probabilities chi2_contingency self = Ok d ->
  exists b p,
    getitem (bad_data self) f = Ok b /\
    dict_get f d = Some (Tuple3 p false None) /\
    ((forallb isinstance_int_float g = true /\
      _calculate_numerical_probability self g b = Ok p) \/
     (forallb isinstance_int_float g = false /\
      forallb isinstance_str g = true /\
      chi2_contingency g b = Ok p)).
Proof.
  intros Hg Hb Hi Hc Hd.
  assert (Hing : In f (columns (good_data self)))
    by now apply getitem_Ok_In in Hg.
  assert (Hk : kept_good self f = true).
  { unfold kept_good, classifiable. rewrite Hi, Hb, Hg. exact Hc. }
  assert (Hin : In f (keys d)).
  { apply (probabilities_keys _ _ _ Hd). now left. }
  destruct (dict_get_keys _ _ _ Hin) as [t Ht].
  destruct (probabilities_get _ _ _ _ _ Hd Ht)
    as [[_ [_ [[Hnb _] | [g' [b [p [Hg' [Hgb [-> Hp]]]]]]]]] | [_ [Hkb _]]].
  - congruence.
  - rewrite Hg in Hg'. injection Hg' as <-. exists b, p. tauto.
  - unfold kept_bad, in_good in Hkb. apply contains_true in Hing.
    rewrite Hing in Hkb. discriminate.
Qed.

(** A shared field whose reference column mixes types has no entry. *)
Lemma mixed_no_entry f g d :
  getitem (good_data self) f = Ok g ->
  in_bad self f = true ->
  forallb isinstance_int_float g = false ->
  forallb isinstance_str g = false ->
  _calculate_probabilities chi2_contingency self = Ok d ->
  dict_get f d = None.
Proof.
  intros Hg Hb Hn Hs Hd. apply dict_get_None. intros Hin.
  apply (probabilities_keys _ _ _ Hd) in Hin.
  destruct Hin as [[_ Hk] | [_ Hk]].
  - unfold kept_good, classifiable in Hk. rewrite Hg, Hb, Hn, Hs in Hk.
    simpl in Hk. now rewrite andb_false_r in Hk.
  - unfold kept_bad, in_good in Hk. apply getitem_Ok_In, contains_true in Hg.
    rewrite Hg in Hk. discriminate.
Qed.

(** No key of the map is ignored. *)
Lemma keys_not_ignored f d :
  _calculate_probabilities chi2_contingency self = Ok d ->
  In f (keys d) -> ignored self f = false.
Proof.
  intros Hd Hin. apply (probabilities_keys _ _ _ Hd) in Hin.
  destruct Hin as [[_ Hk] | [_ Hk]].
  - unfold kept_good in Hk. now destruct (ignored self f).
  - unfold kept_bad in Hk. destruct (ignored self f); [| reflexivity].
    now rewrite andb_false_r in Hk.
Qed.

(** The fields of the rows are the keys of the map, in its order. *)
Lemma run_fields tbl d :
  _calculate_probabilities chi2_contingency self = Ok d ->
  run chi2_contingency self = Ok tbl ->
  map field tbl = keys d.
Proof.
  intros Hd H. apply run_Ok in H as [d' [Hd' [-> Hall]]].
  rewrite Hd in Hd'. injection Hd' as <-.
  assert (Hign : forall f, In f (keys d) -> ignored self f = false)
    by (intros f; now apply keys_not_ignored).
  clear Hd. induction d as [|[k t] d IH]; [reflexivity |].
  inversion Hall as [|? ? [p [a [dt Ht]]] Hall']; subst.
  simpl in Ht. subst t. simpl. unfold rows_of_item at 1. simpl.
  assert (Hk : contains k (fields_to_ignore self) = false)
    by (apply (Hign k); now left).
  rewrite Hk. simpl. f_equal. apply IH; [assumption |].
  intros f Hf. apply Hign. now right.
Qed.

End Table.

(** ** When [run] returns *)

Section Returns.

Variable chi2_contingency : Series -> Series -> result float.
Variable self : ErrorAnalyzer.
Variable strategy : NumericalStrategy.

Hypothesis has_strategy : numerical_strategy self = Some strategy.
Hypothesis strategy_total : forall a b, exists p, strategy a b = Ok p.
Hypothesis chi2_total : forall a b, exists p, chi2_contingency a b = Ok p.

Let is_tuple3 (item : string * entry) : Prop :=
  exists p a dt, snd item = Tuple3 p a dt.

Lemma dict_set_tuple3 f p a dt (d : dict entry) :
  Forall is_tuple3 d -> Forall is_tuple3 (dict_set f (Tuple3 p a dt) d).
Proof.
  assert (Hnew : is_tuple3 (f, Tuple3 p a dt)) by (red; simpl; eauto).
  induction d as [| [k t] d IH]; simpl; intros H.
  - now constructor.
  - inversion H as [| ? ? Hk Hd]; subst.
    destruct (String.eqb k f); constructor; auto.
Qed.

Lemma good_loop_returns l : forall acc,
  (forall f, In f l ->
     In f (columns (good_data self)) /\
     ignored self f || in_bad self f = true) ->
  Forall is_tuple3 acc ->
  exists d,
    for_each (good_field chi2_contingency self) l acc = Ok d /\
    Forall is_tuple3 d.
Proof.
  induction l as [| f l IH]; intros acc Hl Hacc.
  - exists acc. now split.
  - destruct (Hl f (or_introl eq_refl)) as [Hin Hf].
    assert (Hstep : exists d1,
               good_field chi2_contingency self f acc = Ok d1 /\
               Forall is_tuple3 d1).
    { unfold good_field. unfold ignored, in_bad in Hf.
      destruct (contains f (fields_to_ignore self)); [now exists acc |].
      simpl in Hf. rewrite Hf. cbn [negb].
      destruct (In_getitem _ _ Hin) as [g Hg].
      apply contains_true, In_getitem in Hf as [b Hb].
      rewrite Hg, Hb. cbn [bind].
      destruct (forallb isinstance_int_float g).
      - unfold _calculate_numerical_probability. rewrite has_strategy.
        destruct (strategy_total g b) as [p ->]. cbn [bind].
        eexists. split; [reflexivity | now apply dict_set_tuple3].
      - destruct (forallb isinstance_str g); [| now exists acc].
        unfold _calculate_categorical_probability.
        destruct (chi2_total g b) as [p ->]. cbn [bind].
        eexists. split; [reflexivity | now apply dict_set_tuple3]. }
    destruct Hstep as [d1 [H1 Hd1]].
    destruct (IH d1 (fun f' Hf' => Hl f' (or_intror Hf')) Hd1) as [d [H Hd]].
    exists d. split; [| assumption]. simpl. now rewrite H1.
Qed.

Lemma bad_loop_returns l : forall acc,
  (forall f, In f l -> in_good self f || ignored self f = true) ->
  for_each (bad_field self) l acc = Ok acc.
Proof.
  induction l as [| f l IH]; intros acc Hl; [reflexivity |].
  simpl. unfold bad_field at 1.
  specialize (Hl f (or_introl eq_refl)) as Hf. unfold in_good, ignored in Hf.
  destruct (contains f (columns (good_data self))); cbn [negb bind].
  - apply IH. intros f' Hf'. apply Hl. now right.
  - simpl in Hf. rewrite Hf. cbn [negb bind].
    apply IH. intros f' Hf'. apply Hl. now right.
Qed.

Lemma run_loop_returns d : forall acc,
  Forall is_tuple3 d -> exists tbl, for_each (run_item self) d acc = Ok tbl.
Proof.
  induction d as [| [k t] d IH]; intros acc H.
  - now exists acc.
  - inversion H as [| ? ? [p [a [dt Ht]]] Hd]; subst.
    simpl in Ht. subst t. simpl.
    destruct (contains k (fields_to_ignore self)); cbn [negb bind];
      now apply IH.
Qed.

(** Without drift and with tests that answer, [run] returns a table. *)
Lemma run_returns_without_drift :
  no_drift self = true -> exists tbl, run chi2_contingency self = Ok tbl.
Proof.
  unfold no_drift. intros H. apply andb_true_iff in H as [Hg Hb].
  rewrite forallb_forall in Hg, Hb.
  destruct (good_loop_returns (columns (good_data self)) [])
    as [d [Hd Hall]].
  - intros f Hf. split; [assumption | now apply Hg].
  - constructor.
  - unfold run, _calculate_probabilities. rewrite Hd. cbn [bind].
    rewrite (bad_loop_returns (columns (bad_data self)) d Hb). cbn [bind].
    now apply run_loop_returns.
Qed.

End Returns.

(** ** The score conversion *)

Lemma score_significant (p : float) :
  PrimFloat.ltb p alpha = true ->
  _calculate_probability p false = NFloat ((1 - p) * 100)%float.
Proof.
  intros H. unfold _calculate_probability. now rewrite H.
Qed.

Lemma score_not_significant (p : float) :
  PrimFloat.ltb p alpha = false ->
  _calculate_probability p false = NInt 0.
Proof.
  intros H. unfold _calculate_probability. now rewrite H.
Qed.

(** A p-value below [alpha] that is not negative lies in [[0, alpha]]. *)
Lemma significant_range (p : float) :
  PrimFloat.ltb p alpha = true -> PrimFloat.ltb p 0 = false ->
  PrimFloat.leb 0 p = true /\ PrimFloat.leb p alpha = true.
Proof.
  rewrite !ltb_spec, !leb_spec.
  change (Prim2SF 0) with (S754_zero false).
  change (Prim2SF alpha) with (S754_finite false 7205759403792794 (-57)).
  unfold SFltb, SFleb.
  destruct (Prim2SF p) as [s | [|] | | [|] m e]; cbn [SFcompare];
    try discriminate; try (split; reflexivity).
  intros H _. split; [reflexivity |].
  destruct (e ?= -57)%Z; try discriminate; try reflexivity.
  destruct (Pos.compare_cont Eq m 7205759403792794); try discriminate;
    reflexivity.
Qed.

Lemma ltb_leb (p q : float) :
  PrimFloat.ltb p q = true -> PrimFloat.leb p q = true.
Proof.
  rewrite ltb_spec, leb_spec. unfold SFltb, SFleb.
  destruct (SFcompare (Prim2SF p) (Prim2SF q)) as [[| |] |];
    try discriminate; reflexivity.
Qed.

(** The score of a p-value that is not negative lies in [[0, 100]]. *)
Lemma score_in_range (p : float) :
  PrimFloat.ltb p 0 = false ->
  num_between 0 100 (_calculate_probability p false) = true.
Proof.
  intros Hneg. destruct (PrimFloat.ltb p alpha) eqn:Hsig.
  - rewrite (score_significant p Hsig).
    destruct (significant_range p Hsig Hneg) as [H0 Ha].
    destruct (score_bounds p H0 Ha) as [Hl Hu].
    destruct (score_scaled p H0 Ha) as [Ns _].
    unfold num_between, num_le, to_float.
    change (float_of_int 0) with 0%float.
    change (float_of_int 100) with 100%float.
    rewrite Hu, andb_true_r.
    apply leb_scaled; [reflexivity | assumption |].
    change (scaled (Prim2SF 0)) with 0%Z.
    apply scaled_nonneg; [assumption | apply Prim2SF_valid].
  - rewrite (score_not_significant p Hsig). reflexivity.
Qed.

(** A significant score is strictly above the score [0] of a
    non-significant p-value. *)
Lemma score_separation (p q : float) :
  PrimFloat.leb 0 p = true -> PrimFloat.ltb p alpha = true ->
  PrimFloat.ltb q alpha = false ->
  num_lt (_calculate_probability q false) (_calculate_probability p false)
  = true.
Proof.
  intros H0 Hp Hq.
  rewrite (score_significant p Hp), (score_not_significant q Hq).
  pose proof (ltb_leb p alpha Hp) as Ha.
  destruct (score_bounds p H0 Ha) as [Hl _].
  destruct (score_scaled p H0 Ha) as [Ns _].
  unfold num_lt, to_float. change (float_of_int 0) with 0%float.
  apply ltb_scaled; [reflexivity | assumption |].
  apply (leb_scaled 95 _ eq_refl Ns) in Hl.
  change (scaled (Prim2SF 0)) with 0%Z.
  apply Z.lt_le_trans with (2 := Hl). reflexivity.
Qed.

(** * The statements of the specification *)

Lemma between_nonneg (pa pb c : float) :
  PrimFloat.leb 0 pa = true -> PrimFloat.leb pa pb = true ->
  PrimFloat.leb pb c = true -> nonneg_finite (Prim2SF c) = true ->
  nonneg_finite (Prim2SF pb) = true.
Proof.
  rewrite !leb_spec. change (Prim2SF 0) with (S754_zero false).
  unfold SFleb.
  destruct (Prim2SF pb) as [s | [|] | | [|] m e]; try reflexivity;
    destruct (Prim2SF pa) as [s' | [|] | | [|] m' e']; try discriminate;
    destruct (Prim2SF c) as [s'' | [|] | | [|] m'' e'']; discriminate.
Qed.

Lemma distinct_NoDup (l : list string) : distinct l = true -> NoDup l.
Proof.
  induction l as [| x l IH]; simpl; intros H; [constructor |].
  apply andb_true_iff in H as [Hx Hl]. constructor; [| now apply IH].
  apply contains_false. now destruct (contains x l).
Qed.

(** C1 (the code fails where the claim holds): with a field that is only
    in the reference frame ([gone]) or only in the candidate frame
    ([new]) and not ignored, [run] emits no drift row: the 4-tuple stored
    for the field does not unpack into the three names of the loop and
    [run] raises [ValueError].  The score the drift branch computes,
    [0.99999 * 100], is the double [99.99900000000001], not [99.999]. *)
Theorem run_raises_on_drift :
  run Examples.docstring_chi2 Examples.drift_engine
  = Raise (ValueError "too many values to unpack (expected 3)") /\
  run Examples.docstring_chi2 Examples.additional_engine
  = Raise (ValueError "too many values to unpack (expected 3)") /\
  _calculate_probability 0 true = NFloat 99.99900000000001 /\
  PrimFloat.eqb 99.99900000000001 99.999 = false.
Proof. repeat split. Qed.

(** C2, not strictly monotone: [1e-20 < 2e-20 < 0.05], yet both p-values
    score exactly [100.0], because [1 - p] rounds to [1.0] for both. *)
Lemma score_not_strictly_monotone :
  PrimFloat.leb 0 1e-20 = true /\
  PrimFloat.ltb 1e-20 2e-20 = true /\
  PrimFloat.ltb 2e-20 0.05 = true /\
  PrimFloat.leb 2e-20 1 = true /\
  _calculate_probability 1e-20 false = NFloat 100 /\
  _calculate_probability 2e-20 false = NFloat 100 /\
  num_lt (_calculate_probability 2e-20 false)
         (_calculate_probability 1e-20 false) = false.
Proof. repeat split. Qed.

(** C2 (amended): for a p-value [p] with [0 <= p <= 1], the score is the
    binary64 [(1 - p) * 100] when [p < 0.05] and the integer [0]
    otherwise; for [p < q < 0.05] the score of [p] is greater than or
    equal to the score of [q]; and a score with [p < 0.05] is strictly
    greater than the score of any [q] that is not below [0.05]. *)
Theorem score_thresholded_weakly_monotone (p : float) :
  PrimFloat.leb 0 p = true -> PrimFloat.leb p 1 = true ->
  (PrimFloat.ltb p alpha = true ->
   _calculate_probability p false = NFloat ((1 - p) * 100)%float) /\
  (PrimFloat.ltb p alpha = false ->
   _calculate_probability p false = NInt 0) /\
  (forall q, PrimFloat.ltb p q = true -> PrimFloat.ltb q alpha = true ->
     num_le (_calculate_probability q false)
            (_calculate_probability p false) = true) /\
  (forall q, PrimFloat.ltb p alpha = true ->
     PrimFloat.ltb q alpha = false ->
     num_lt (_calculate_probability q false)
            (_calculate_probability p false) = true).
Proof.
  intros H0 _. split; [apply score_significant |].
  split; [apply score_not_significant |]. split.
  - intros q Hpq Hqa.
    pose proof (ltb_leb p q Hpq) as Lpq.
    pose proof (ltb_leb q alpha Hqa) as Lqa.
    assert (Nq : nonneg_finite (Prim2SF q) = true)
      by (apply (between_nonneg p q alpha); auto).
    assert (Np : nonneg_finite (Prim2SF p) = true)
      by (apply (leb_nonneg p q); auto).
    assert (Hpa : PrimFloat.ltb p alpha = true).
    { apply ltb_scaled; [assumption | reflexivity |].
      apply Z.lt_trans with (scaled (Prim2SF q)); apply ltb_scaled; auto. }
    rewrite (score_significant p Hpa), (score_significant q Hqa).
    unfold num_le, to_float. now apply score_antitone.
  - intros q Hpa Hqa. now apply score_separation.
Qed.

Lemma score_thresholded_weakly_monotone_witness :
  PrimFloat.leb 0 0.01 = true /\ PrimFloat.leb 0.01 1 = true /\
  _calculate_probability 0.01 false = NFloat 99 /\
  _calculate_probability 0.5 false = NInt 0 /\
  num_le (_calculate_probability 0.02 false)
         (_calculate_probability 0.01 false) = true /\
  num_lt (_calculate_probability 0.5 false)
         (_calculate_probability 0.01 false) = true.
Proof.
  destruct (score_thresholded_weakly_monotone 0.01 eq_refl eq_refl)
    as [H1 [_ [H3 H4]]].
  destruct (score_thresholded_weakly_monotone 0.5 eq_refl eq_refl)
    as [_ [H2 _]].
  split; [reflexivity |]. split; [reflexivity |].
  split; [rewrite (H1 eq_refl); reflexivity |].
  split; [exact (H2 eq_refl) |].
  split; [exact (H3 0.02%float eq_refl eq_refl) |].
  exact (H4 0.5%float eq_refl eq_refl).
Defined.

(** C3 (the code fails where the claim holds): on the samples of the
    docstring, [calculate_effect_size] returns about [1.372], the
    difference of the means over the pooled variance: [pooled_std] is
    never given its square root.  The pooled-standard-deviation statistic
    of the claim is about [4.414].  On an analysed column of strings the
    call raises instead of returning a number. *)
Theorem effect_size_divides_by_pooled_variance :
  (exists d, calculate_effect_size Examples.docstring_chi2
               Examples.shared_engine "size" = Ok d /\
             PrimFloat.ltb 1.37 d = true /\ PrimFloat.ltb d 1.38 = true) /\
  (exists d, pooled_std_cohen_d Examples.sizes_good Examples.sizes_bad = Ok d
             /\ PrimFloat.ltb 4.41 d = true /\ PrimFloat.ltb d 4.42 = true) /\
  calculate_effect_size Examples.docstring_chi2 Examples.shared_engine "color"
  = Raise (TypeError "Could not convert string to numeric").
Proof.
  split; [| split].
  - eexists. split; [vm_compute; reflexivity |]. split; reflexivity.
  - eexists. split; [vm_compute; reflexivity |]. split; reflexivity.
  - reflexivity.
Qed.

(** C4 (the code fails where the claim holds): in
    [MoreExamples.lost_column_engine] the fields [size] (all numbers) and
    [color] (all strings) are in both frames and not ignored, and the
    probability map holds the 3-tuple of a p-value for each of them.  Yet
    [run] returns no table, so neither field gets its row: the map also
    holds the 4-tuple of the reference-only column [gone], which does not
    unpack into the three names of the loop of [run].  Without the column
    [gone] the same two fields get one row each. *)
Theorem shared_rows_lost_on_drift :
  let self := MoreExamples.lost_column_engine in
  distinct (columns (good_data self)) = true /\
  distinct (columns (bad_data self)) = true /\
  (in_good self "size" = true /\ in_bad self "size" = true /\
   ignored self "size" = false /\
   getitem (good_data self) "size" = Ok Examples.sizes_good /\
   forallb isinstance_int_float Examples.sizes_good = true) /\
  (in_good self "color" = true /\ in_bad self "color" = true /\
   ignored self "color" = false /\
   getitem (good_data self) "color" = Ok Examples.colours /\
   forallb isinstance_str Examples.colours = true) /\
  _calculate_probabilities Examples.docstring_chi2 self
  = Ok [("size"%string, Tuple3 0.0005528697203011475 false None);
        ("color"%string, Tuple3 0.7376674784345812 false None);
        ("gone"%string, MISSING_BAD_DATA)] /\
  run Examples.docstring_chi2 self
  = Raise (ValueError "too many values to unpack (expected 3)") /\
  (forall tbl, run Examples.docstring_chi2 self <> Ok tbl) /\
  exists tbl,
    run Examples.docstring_chi2 MoreExamples.kept_column_engine = Ok tbl /\
    map field tbl = ["size"; "color"]%string.
Proof.
  cbv zeta.
  split; [reflexivity |]. split; [reflexivity |].
  split; [repeat split |]. split; [repeat split |].
  split; [reflexivity |]. split; [reflexivity |].
  split; [intros tbl H; discriminate H |].
  eexists. split; [vm_compute; reflexivity | reflexivity].
Qed.

(** Where [run] does return a table (no field that is not ignored is in
    only one frame), and the column labels of each frame are distinct, a
    field that is in both frames and not ignored has exactly one row,
    with a probability in [[0, 100]], if its reference column is all
    numbers or all strings, and no row if the column mixes types.  The
    tests are taken not to return a negative p-value. *)
Lemma shared_field_one_row
  (chi2_contingency : Series -> Series -> result float)
  (self : ErrorAnalyzer) (f : string) (g : Series) (tbl : list Row) :
  NoDup (columns (good_data self)) ->
  NoDup (columns (bad_data self)) ->
  (forall a b p, chi2_contingency a b = Ok p -> PrimFloat.ltb p 0 = false) ->
  (forall strategy a b p, numerical_strategy self = Some strategy ->
     strategy a b = Ok p -> PrimFloat.ltb p 0 = false) ->
  run chi2_contingency self = Ok tbl ->
  getitem (good_data self) f = Ok g ->
  in_bad self f = true -> ignored self f = false ->
  (forallb isinstance_int_float g || forallb isinstance_str g = true ->
   exists r, rows_for f tbl = [r] /\ field r = f /\
             num_between 0 100 (probability r) = true) /\
  (forallb isinstance_int_float g || forallb isinstance_str g = false ->
   rows_for f tbl = []).
Proof.
  intros _ _ Hchi Hnum Hrun Hg Hb Hi.
  apply run_Ok in Hrun as [d [Hd [-> _]]].
  rewrite (rows_for_flat_map self f d (probabilities_NoDup _ _ _ Hd)).
  split; intros Hc.
  - destruct (shared_entry _ _ f g d Hg Hb Hi Hc Hd) as [b [p [_ [-> Hp]]]].
    unfold rows_of_item. cbn [fst snd]. unfold ignored in Hi. rewrite Hi.
    cbn [negb]. eexists. split; [reflexivity |]. cbn [field probability].
    split; [reflexivity |]. apply score_in_range.
    destruct Hp as [[_ Hp] | [_ [_ Hp]]].
    + unfold _calculate_numerical_probability in Hp.
      destruct (numerical_strategy self) as [strategy |] eqn:Hs;
        [| discriminate].
      now apply (Hnum strategy g b p).
    + now apply (Hchi g b p).
  - apply orb_false_iff in Hc as [Hn Hs].
    now rewrite (mixed_no_entry _ _ f g d Hg Hb Hn Hs Hd).
Qed.

Lemma shared_field_one_row_witness :
  (exists r, rows_for "size" Examples.shared_table = [r] /\ field r = "size"%string
             /\ num_between 0 100 (probability r) = true) /\
  rows_for "mixed" Examples.shared_table = [].
Proof.
  assert (Hchi : forall a b p, Examples.docstring_chi2 a b = Ok p ->
                   PrimFloat.ltb p 0 = false).
  { intros a b p [= <-]. reflexivity. }
  assert (Hnum : forall strategy a b p,
             numerical_strategy Examples.shared_engine = Some strategy ->
             strategy a b = Ok p -> PrimFloat.ltb p 0 = false).
  { intros strategy a b p [= <-] [= <-]. reflexivity. }
  assert (Ng : NoDup (columns (good_data Examples.shared_engine)))
    by (apply distinct_NoDup; reflexivity).
  assert (Nb : NoDup (columns (bad_data Examples.shared_engine)))
    by (apply distinct_NoDup; reflexivity).
  split.
  - apply (shared_field_one_row Examples.docstring_chi2 Examples.shared_engine
             "size" Examples.sizes_good Examples.shared_table Ng Nb Hchi Hnum
             eq_refl eq_refl eq_refl eq_refl).
    reflexivity.
  - apply (shared_field_one_row Examples.docstring_chi2 Examples.shared_engine
             "mixed" [VInt 1; VStr "x"] Examples.shared_table Ng Nb Hchi Hnum
             eq_refl eq_refl eq_refl eq_refl).
    reflexivity.
Defined.

(** C5: a field of the ignore-list has no row in the table [run] returns,
    whichever frames it is in. *)
Theorem ignored_field_no_row
  (chi2_contingency : Series -> Series -> result float)
  (self : ErrorAnalyzer) (f : string) (tbl : list Row) :
  ignored self f = true ->
  run chi2_contingency self = Ok tbl ->
  rows_for f tbl = [] /\ ~ In f (map field tbl).
Proof.
  intros Hi Hrun.
  assert (Hno : forall r, In r tbl -> field r <> f).
  { apply run_Ok in Hrun as [d [_ [-> _]]].
    intros r Hr. apply in_flat_map in Hr as [item [_ Hr]].
    apply rows_of_item_field in Hr as [-> Hn].
    intros <-. unfold ignored in Hi. congruence. }
  split.
  - unfold rows_for. clear Hrun.
    induction tbl as [| r tbl IH]; [reflexivity |]. simpl.
    destruct (String.eqb (field r) f) eqn:E.
    + apply String.eqb_eq in E. exfalso. apply (Hno r); [now left | assumption].
    + apply IH. intros r' Hr'. apply Hno. now right.
  - intros Hin. apply in_map_iff in Hin as [r [Hf Hr]].
    now apply (Hno r Hr).
Qed.

Lemma ignored_field_no_row_witness :
  ignored Examples.shared_engine "secret" = true /\
  rows_for "secret" Examples.shared_table = [] /\
  ~ In "secret"%string (map field Examples.shared_table).
Proof.
  split; [reflexivity |].
  exact (ignored_field_no_row Examples.docstring_chi2 Examples.shared_engine
           "secret" Examples.shared_table eq_refl eq_refl).
Defined.

(** C6: [adjust_p_values(ps, 'bonferroni')] returns a list as long as
    [ps] whose entries are [min(p * len(ps), 1.0)]; on
    [[0.01, 0.02, 0.5]] it returns [[0.03, 0.06, 1.0]]. *)
Theorem bonferroni_adjustment (ps : list float) :
  (exists adjusted,
      adjust_p_values ps "bonferroni" = Ok adjusted /\
      length adjusted = length ps /\
      adjusted =
      map (fun p =>
             py_min (p * float_of_int (Z.of_nat (length ps)))%float 1%float)
          ps) /\
  adjust_p_values [0.01; 0.02; 0.5]%float "bonferroni"
  = Ok [0.03; 0.06; 1]%float.
Proof.
  split; [| reflexivity].
  eexists. split; [reflexivity |].
  unfold _apply_bonferroni_correction.
  rewrite !length_map, map_map. split; reflexivity.
Qed.

(** C7: any adjustment method other than ['bonferroni'] raises the
    unsupported-method [ValueError]; no list is returned.  The method
    reads and writes no attribute of the engine, so the function has no
    engine argument and leaves every engine as it was. *)
Theorem unsupported_method_raises (ps : list float) (method : string) :
  String.eqb method "bonferroni" = false ->
  adjust_p_values ps method
  = Raise (ValueError ("Adjustment method '" ++ method
                         ++ "' is not supported.")).
Proof.
  intros H. unfold adjust_p_values. now rewrite H.
Qed.

Lemma unsupported_method_raises_witness :
  String.eqb "holm" "bonferroni" = false /\
  adjust_p_values [0.01; 0.02; 0.5]%float "holm"
  = Raise (ValueError "Adjustment method 'holm' is not supported.").
Proof.
  split; [reflexivity |].
  exact (unsupported_method_raises [0.01; 0.02; 0.5]%float "holm" eq_refl).
Defined.

(** C8: for frames with distinct column labels, the keys of the
    probability map are the reference fields in their column order
    (ignored fields and shared fields of mixed type skipped) followed by
    the candidate-only fields in the candidate's column order, and the
    rows of the table [run] returns follow that order. *)
Theorem result_table_order
  (chi2_contingency : Series -> Series -> result float)
  (self : ErrorAnalyzer) :
  NoDup (columns (good_data self)) ->
  NoDup (columns (bad_data self)) ->
  (forall d, _calculate_probabilities chi2_contingency self = Ok d ->
             keys d = expected_order self) /\
  (forall tbl, run chi2_contingency self = Ok tbl ->
               map field tbl = expected_order self).
Proof.
  intros Ng Nb. split.
  - intros d Hd. now apply (probabilities_order chi2_contingency).
  - intros tbl Hrun.
    destruct (run_Ok _ _ _ Hrun) as [d [Hd _]].
    rewrite (run_fields _ _ _ _ Hd Hrun).
    now apply (probabilities_order chi2_contingency).
Qed.

Lemma result_table_order_witness :
  map field Examples.shared_table = ["size"; "color"; "flag"]%string /\
  keys Examples.drift_probabilities = ["size"; "gone"; "new"]%string.
Proof.
  split.
  - apply (result_table_order Examples.docstring_chi2 Examples.shared_engine);
      [apply distinct_NoDup; reflexivity
      | apply distinct_NoDup; reflexivity | reflexivity].
  - apply (result_table_order Examples.docstring_chi2 Examples.drift_engine);
      [apply distinct_NoDup; reflexivity
      | apply distinct_NoDup; reflexivity | reflexivity].
Defined.

(** C9: in frames with distinct column labels, a shared field that is
    not ignored and whose reference column holds only booleans passes the
    is-a-number check; the loop body calls the numeric strategy on it and
    stores the 3-tuple of its p-value. *)
Theorem bool_column_numeric
  (chi2_contingency : Series -> Series -> result float)
  (self : ErrorAnalyzer) (f : string) (g : Series) :
  NoDup (columns (good_data self)) ->
  NoDup (columns (bad_data self)) ->
  getitem (good_data self) f = Ok g ->
  in_bad self f = true -> ignored self f = false ->
  forallb isinstance_bool g = true ->
  forallb isinstance_int_float g = true /\
  exists b,
    getitem (bad_data self) f = Ok b /\
    (forall acc,
        good_field chi2_contingency self f acc =
        (p_value <- _calculate_numerical_probability self g b ;;
         Ok (dict_set f (Tuple3 p_value false None) acc))) /\
    (forall d, _calculate_probabilities chi2_contingency self = Ok d ->
       exists strategy p,
         numerical_strategy self = Some strategy /\
         strategy g b = Ok p /\
         dict_get f d = Some (Tuple3 p false None)).
Proof.
  intros _ _ Hg Hb Hi Hbool.
  assert (Hnum : forallb isinstance_int_float g = true).
  { apply forallb_forall. intros x Hx.
    rewrite forallb_forall in Hbool. specialize (Hbool x Hx).
    now destruct x. }
  split; [assumption |].
  pose proof Hb as Hb'. unfold in_bad in Hb'.
  apply contains_true, In_getitem in Hb' as [b Hgb].
  exists b. split; [assumption |]. split.
  - intros acc. unfold good_field. unfold ignored in Hi. unfold in_bad in Hb.
    rewrite Hi, Hb, Hg, Hgb. cbn [negb bind]. now rewrite Hnum.
  - intros d Hd.
    assert (Hc : forallb isinstance_int_float g || forallb isinstance_str g
                 = true) by now rewrite Hnum.
    destruct (shared_entry _ _ f g d Hg Hb Hi Hc Hd)
      as [b' [p [Hgb' [Hget Hp]]]].
    rewrite Hgb in Hgb'. injection Hgb' as <-.
    destruct Hp as [[_ Hp] | [Hn _]]; [| congruence].
    unfold _calculate_numerical_probability in Hp.
    destruct (numerical_strategy self) as [strategy |]; [| discriminate].
    now exists strategy, p.
Qed.

Lemma bool_column_numeric_witness :
  forallb isinstance_int_float [VBool true; VBool false] = true /\
  dict_get "flag" Examples.shared_probabilities
  = Some (Tuple3 0.0005528697203011475 false None).
Proof.
  destruct (bool_column_numeric Examples.docstring_chi2 Examples.shared_engine
              "flag" [VBool true; VBool false]
              (distinct_NoDup (columns (good_data Examples.shared_engine))
                 eq_refl)
              (distinct_NoDup (columns (bad_data Examples.shared_engine))
                 eq_refl)
              eq_refl eq_refl eq_refl eq_refl)
    as [Hn [b [Hb [_ Hd]]]].
  split; [exact Hn |].
  destruct (Hd Examples.shared_probabilities eq_refl)
    as [strategy [p [Hs [Hp Hget]]]].
  injection Hs as <-. injection Hp as <-. exact Hget.
Defined.

(** C10: for a field of the reference frame that the candidate frame
    lacks and that is not ignored, [calculate_effect_size] returns
    neither an effect size nor [0.0]: the map holds the 4-tuple
    [MISSING_BAD_DATA] for it and unpacking it into three names raises. *)
Theorem effect_size_fails_on_missing_field
  (chi2_contingency : Series -> Series -> result float)
  (self : ErrorAnalyzer) (f : string) :
  in_good self f = true -> in_bad self f = false -> ignored self f = false ->
  (forall r, calculate_effect_size chi2_contingency self f <> Ok r) /\
  (forall d, _calculate_probabilities chi2_contingency self = Ok d ->
     dict_get f d = Some MISSING_BAD_DATA /\
     calculate_effect_size chi2_contingency self f
     = Raise (ValueError "too many values to unpack (expected 3)")).
Proof.
  intros Hg Hb Hi.
  assert (Hmain : forall d,
             _calculate_probabilities chi2_contingency self = Ok d ->
             dict_get f d = Some MISSING_BAD_DATA /\
             calculate_effect_size chi2_contingency self f
             = Raise (ValueError "too many values to unpack (expected 3)")).
  { intros d Hd.
    pose proof (missing_entry chi2_contingency self f d Hg Hb Hi Hd) as Hm.
    split; [assumption |].
    unfold calculate_effect_size. unfold ignored in Hi.
    rewrite Hi, Hd. cbn [bind]. rewrite Hm. reflexivity. }
  split; [| assumption].
  intros r Hr.
  destruct (_calculate_probabilities chi2_contingency self) as [d | e]
    eqn:Hd.
  - destruct (Hmain d eq_refl) as [_ Hraise]. congruence.
  - unfold calculate_effect_size in Hr. unfold ignored in Hi.
    rewrite Hi, Hd in Hr. discriminate.
Qed.

Lemma effect_size_fails_on_missing_field_witness :
  in_good Examples.drift_engine "gone" = true /\
  in_bad Examples.drift_engine "gone" = false /\
  dict_get "gone" Examples.drift_probabilities = Some MISSING_BAD_DATA /\
  calculate_effect_size Examples.docstring_chi2 Examples.drift_engine "gone"
  = Raise (ValueError "too many values to unpack (expected 3)").
Proof.
  split; [reflexivity |]. split; [reflexivity |].
  exact (proj2 (effect_size_fails_on_missing_field Examples.docstring_chi2
                  Examples.drift_engine "gone" eq_refl eq_refl eq_refl)
           Examples.drift_probabilities eq_refl).
Defined.

(** * Further properties of the engine *)

(** ** When the map builds and when [run] returns *)

Lemma forallb_false_exists {A} (p : A -> bool) (l : list A) :
  forallb p l = false -> exists x, In x l /\ p x = false.
Proof.
  induction l as [| a l IH]; simpl; [discriminate |].
  destruct (p a) eqn:E; simpl; intros H.
  - destruct (IH H) as [x [Hx Hp]]. exists x. tauto.
  - exists a. tauto.
Qed.

Lemma for_each_Raise {A S} (body : A -> S -> result S) (l : list A) :
  forall s e, for_each body l s = Raise e ->
  exists a s', In a l /\ body a s' = Raise e.
Proof.
  induction l as [| a l IH]; intros s e H; [discriminate |].
  simpl in H. destruct (body a s) as [s1 | e1] eqn:E; simpl in H.
  - destruct (IH s1 e H) as [a' [s' [Hin Hb]]]. exists a', s'.
    split; [now right | assumption].
  - injection H as <-. exists a, s. split; [now left | assumption].
Qed.

Lemma bad_field_Ok (self : ErrorAnalyzer) (f : string) (acc : dict entry) :
  exists d, bad_field self f acc = Ok d.
Proof.
  unfold bad_field.
  destruct (negb (contains f (columns (good_data self))));
    [destruct (negb (contains f (fields_to_ignore self))) |]; eauto.
Qed.

Section MapBuilds.

Variable chi2_contingency : Series -> Series -> result float.
Variable self : ErrorAnalyzer.

(** The entries of the map when no field drifts: 3-tuples only. *)
Lemma no_drift_tuple3 d :
  no_drift self = true ->
  _calculate_probabilities chi2_contingency self = Ok d ->
  Forall (fun item => exists p a dt, snd item = Tuple3 p a dt) d.
Proof.
  unfold no_drift. intros H Hd. apply andb_true_iff in H as [Hg Hb].
  rewrite forallb_forall in Hg, Hb.
  apply Forall_forall. intros [k t] Hin. simpl.
  pose proof (In_dict_get _ k t d (probabilities_NoDup _ _ _ Hd) Hin) as Hget.
  destruct (probabilities_get _ _ _ _ _ Hd Hget)
    as [[Hk [Hkept [[Hnb ->] | [g [b [p [_ [_ [-> _]]]]]]]]]
       | [Hk [Hkept ->]]].
  - specialize (Hg k Hk). unfold kept_good in Hkept.
    rewrite Hnb in Hg. destruct (ignored self k); discriminate.
  - eauto.
  - specialize (Hb k Hk). unfold kept_bad in Hkept.
    destruct (in_good self k), (ignored self k); discriminate.
Qed.

(** A field that drifts and is not ignored, found from [no_drift]. *)
Lemma drift_field_exists :
  no_drift self = false ->
  exists f, in_good self f <> in_bad self f /\ ignored self f = false.
Proof.
  unfold no_drift. intros H. apply andb_false_iff in H as [H | H];
    apply forallb_false_exists in H as [f [Hin Hf]];
    apply orb_false_iff in Hf as [H1 H2]; exists f.
  - split; [| assumption]. apply contains_true in Hin.
    unfold in_good. rewrite Hin, H2. discriminate.
  - split; [| assumption]. apply contains_true in Hin.
    unfold in_bad. rewrite Hin, H1. discriminate.
Qed.

(** An exception of the first loop comes from a test. *)
Lemma good_field_Raise f acc e :
  In f (columns (good_data self)) ->
  good_field chi2_contingency self f acc = Raise e ->
  ignored self f = false /\
  exists g b,
    getitem (good_data self) f = Ok g /\
    getitem (bad_data self) f = Ok b /\
    ((forallb isinstance_int_float g = true /\
      _calculate_numerical_probability self g b = Raise e) \/
     (forallb isinstance_int_float g = false /\
      forallb isinstance_str g = true /\
      chi2_contingency g b = Raise e)).
Proof.
  intros Hin. unfold good_field, ignored.
  destruct (contains f (fields_to_ignore self)); [discriminate |].
  destruct (contains f (columns (bad_data self))) eqn:Hb; cbn [negb];
    [| discriminate].
  destruct (In_getitem _ _ Hin) as [g Hg].
  apply contains_true, In_getitem in Hb as [b Hgb].
  rewrite Hg, Hgb. cbn [bind].
  destruct (forallb isinstance_int_float g) eqn:Hn.
  - destruct (_calculate_numerical_probability self g b) as [p | e'] eqn:Hp;
      cbn [bind]; [discriminate |].
    intros [= <-]. split; [reflexivity |]. exists g, b. tauto.
  - destruct (forallb isinstance_str g) eqn:Hs; [| discriminate].
    unfold _calculate_categorical_probability.
    destruct (chi2_contingency g b) as [p | e'] eqn:Hp; cbn [bind];
      [discriminate |].
    intros [= <-]. split; [reflexivity |]. exists g, b. tauto.
Qed.

End MapBuilds.

(** X1: once the probability map is built, [run] returns a table exactly
    when no field that is not ignored is in one frame only. *)
Theorem run_returns_iff_no_drift
  (chi2_contingency : Series -> Series -> result float)
  (self : ErrorAnalyzer) (d : dict entry) :
  _calculate_probabilities chi2_contingency self = Ok d ->
  (exists tbl, run chi2_contingency self = Ok tbl) <-> no_drift self = true.
Proof.
  intros Hd. split.
  - intros [tbl Hrun]. destruct (no_drift self) eqn:Hnd; [reflexivity |].
    destruct (drift_field_exists self Hnd) as [f [Hne Hi]].
    exfalso. exact (run_fails_on_drift chi2_contingency self f Hne Hi tbl Hrun).
  - intros Hnd. unfold run. rewrite Hd. cbn [bind].
    apply (run_loop_returns self d []).
    exact (no_drift_tuple3 chi2_contingency self d Hnd Hd).
Qed.

Lemma run_returns_iff_no_drift_witness :
  ((exists tbl, run Examples.docstring_chi2 Examples.shared_engine = Ok tbl)
   <-> no_drift Examples.shared_engine = true) /\
  ((exists tbl, run Examples.docstring_chi2 Examples.drift_engine = Ok tbl)
   <-> no_drift Examples.drift_engine = true) /\
  no_drift Examples.shared_engine = true /\
  no_drift Examples.drift_engine = false.
Proof.
  split; [| split; [| split; reflexivity]].
  - exact (run_returns_iff_no_drift Examples.docstring_chi2
             Examples.shared_engine Examples.shared_probabilities eq_refl).
  - exact (run_returns_iff_no_drift Examples.docstring_chi2
             Examples.drift_engine Examples.drift_probabilities eq_refl).
Defined.

(** An exception of [_calculate_probabilities] comes from a test. *)
Lemma probabilities_Raise_inv
  (chi2_contingency : Series -> Series -> result float)
  (self : ErrorAnalyzer) (e : exn) :
  _calculate_probabilities chi2_contingency self = Raise e ->
  exists f g b,
    In f (columns (good_data self)) /\ ignored self f = false /\
    getitem (good_data self) f = Ok g /\
    getitem (bad_data self) f = Ok b /\
    ((forallb isinstance_int_float g = true /\
      _calculate_numerical_probability self g b = Raise e) \/
     (forallb isinstance_int_float g = false /\
      forallb isinstance_str g = true /\
      chi2_contingency g b = Raise e)).
Proof.
  unfold _calculate_probabilities. intros H.
  destruct (for_each (good_field chi2_contingency self)
              (columns (good_data self)) []) as [d1 | e1] eqn:H1;
    cbn [bind] in H.
  - apply for_each_Raise in H as [f [acc [_ Hb]]].
    destruct (bad_field_Ok self f acc) as [d Hd]. congruence.
  - injection H as <-.
    apply for_each_Raise in H1 as [f [acc [Hin Hf]]].
    destruct (good_field_Raise chi2_contingency self f acc e1 Hin Hf)
      as [Hi [g [b [Hg [Hb Ht]]]]].
    exists f, g, b. tauto.
Qed.

(** X2: an exception raised while the probability map is built is the one
    raised by the test called on the two columns of a reference field
    that is not ignored: the numeric strategy (or its absence) for a
    column of numbers, the chi-squared test for a column of strings.  The
    column lookups of the loops themselves never fail. *)
Theorem probabilities_raise_only_from_tests
  (chi2_contingency : Series -> Series -> result float)
  (self : ErrorAnalyzer) (e : exn) :
  _calculate_probabilities chi2_contingency self = Raise e ->
  exists f g b,
    In f (columns (good_data self)) /\ ignored self f = false /\
    getitem (good_data self) f = Ok g /\
    getitem (bad_data self) f = Ok b /\
    ((forallb isinstance_int_float g = true /\
      _calculate_numerical_probability self g b = Raise e) \/
     (forallb isinstance_int_float g = false /\
      forallb isinstance_str g = true /\
      chi2_contingency g b = Raise e)).
Proof. exact (probabilities_Raise_inv chi2_contingency self e). Qed.

Lemma probabilities_raise_only_from_tests_witness :
  exists f g b,
    In f (columns (good_data MoreExamples.no_strategy_engine)) /\
    ignored MoreExamples.no_strategy_engine f = false /\
    getitem (good_data MoreExamples.no_strategy_engine) f = Ok g /\
    getitem (bad_data MoreExamples.no_strategy_engine) f = Ok b /\
    ((forallb isinstance_int_float g = true /\
      _calculate_numerical_probability MoreExamples.no_strategy_engine g b
      = Raise (AttributeError
                 "'NoneType' object has no attribute 'calculate_probability'"))
     \/
     (forallb isinstance_int_float g = false /\
      forallb isinstance_str g = true /\
      Examples.docstring_chi2 g b
      = Raise (AttributeError
                 "'NoneType' object has no attribute 'calculate_probability'"))).
Proof.
  exact (probabilities_raise_only_from_tests Examples.docstring_chi2
           MoreExamples.no_strategy_engine _ eq_refl).
Defined.



(** ** The rows of a returned table *)

(** The rows of a returned table come from 3-tuples [(p, False, None)]. *)
Lemma returned_rows_unflagged
  (chi2_contingency : Series -> Series -> result float)
  (self : ErrorAnalyzer) (tbl : list Row) (r : Row) :
  run chi2_contingency self = Ok tbl -> In r tbl ->
  extra_status r = false /\ details r = None.
Proof.
  intros Hrun Hr. apply run_Ok in Hrun as [d [Hd [-> _]]].
  apply in_flat_map in Hr as [[k t] [Hin Hr]].
  pose proof (In_dict_get _ k t d (probabilities_NoDup _ _ _ Hd) Hin) as Hget.
  destruct (probabilities_get _ _ _ _ _ Hd Hget)
    as [[_ [_ [[_ ->] | [g [b [p [_ [_ [-> _]]]]]]]]] | [_ [_ ->]]];
    try (now destruct Hr).
  unfold rows_of_item in Hr. cbn [fst snd] in Hr.
  destruct (negb (contains k (fields_to_ignore self))); [| now destruct Hr].
  destruct Hr as [<- | []]. now split.
Qed.

(** X4: no row of a table that [run] returns is flagged as drift: every
    row has [extra_status = False] and no detail string. *)
Theorem table_rows_unflagged
  (chi2_contingency : Series -> Series -> result float)
  (self : ErrorAnalyzer) (tbl : list Row) (r : Row) :
  run chi2_contingency self = Ok tbl -> In r tbl ->
  extra_status r = false /\ details r = None.
Proof. exact (returned_rows_unflagged chi2_contingency self tbl r). Qed.

Lemma table_rows_unflagged_witness :
  Forall (fun r => extra_status r = false /\ details r = None)
         Examples.shared_table.
Proof.
  apply Forall_forall. intros r Hr.
  exact (table_rows_unflagged Examples.docstring_chi2 Examples.shared_engine
           Examples.shared_table r eq_refl Hr).
Defined.

(** X5: no field has two rows in a table that [run] returns. *)
Theorem table_fields_distinct
  (chi2_contingency : Series -> Series -> result float)
  (self : ErrorAnalyzer) (tbl : list Row) :
  run chi2_contingency self = Ok tbl -> NoDup (map field tbl).
Proof.
  intros Hrun. destruct (run_Ok _ _ _ Hrun) as [d [Hd _]].
  rewrite (run_fields _ _ _ _ Hd Hrun). now apply probabilities_NoDup in Hd.
Qed.

Lemma table_fields_distinct_witness :
  NoDup (map field Examples.shared_table).
Proof.
  exact (table_fields_distinct Examples.docstring_chi2 Examples.shared_engine
           Examples.shared_table eq_refl).
Defined.

(** X6: the score of a p-value that is not negative is either the integer
    [0] or a double between [95] and [100]: the thresholding leaves no
    score strictly between [0] and [95]. *)
Theorem score_zero_or_high (p : float) :
  PrimFloat.ltb p 0 = false ->
  _calculate_probability p false = NInt 0 \/
  exists s, _calculate_probability p false = NFloat s /\
            PrimFloat.leb 95 s = true /\ PrimFloat.leb s 100 = true.
Proof.
  intros Hneg. destruct (PrimFloat.ltb p alpha) eqn:Hsig.
  - right. exists ((1 - p) * 100)%float.
    split; [now apply score_significant |].
    destruct (significant_range p Hsig Hneg) as [H0 Ha].
    now apply score_bounds.
  - left. now apply score_not_significant.
Qed.

Lemma score_zero_or_high_witness :
  PrimFloat.ltb 0.049 0 = false /\
  (_calculate_probability 0.049 false = NInt 0 \/
   exists s, _calculate_probability 0.049 false = NFloat s /\
             PrimFloat.leb 95 s = true /\ PrimFloat.leb s 100 = true).
Proof.
  split; [reflexivity | exact (score_zero_or_high 0.049 eq_refl)].
Defined.

(** X7: with tests that never return a negative p-value, every row of a
    table that [run] returns carries the score [0] or a score between
    [95] and [100]. *)
Theorem table_scores_zero_or_high
  (chi2_contingency : Series -> Series -> result float)
  (self : ErrorAnalyzer) (tbl : list Row) (r : Row) :
  (forall a b p, chi2_contingency a b = Ok p -> PrimFloat.ltb p 0 = false) ->
  (forall strategy a b p, numerical_strategy self = Some strategy ->
     strategy a b = Ok p -> PrimFloat.ltb p 0 = false) ->
  run chi2_contingency self = Ok tbl -> In r tbl ->
  probability r = NInt 0 \/
  exists s, probability r = NFloat s /\
            PrimFloat.leb 95 s = true /\ PrimFloat.leb s 100 = true.
Proof.
  intros Hchi Hnum Hrun Hr. apply run_Ok in Hrun as [d [Hd [-> _]]].
  apply in_flat_map in Hr as [[k t] [Hin Hr]].
  pose proof (In_dict_get _ k t d (probabilities_NoDup _ _ _ Hd) Hin) as Hget.
  destruct (probabilities_get _ _ _ _ _ Hd Hget)
    as [[_ [_ [[_ ->] | [g [b [p [_ [_ [-> Hp]]]]]]]]] | [_ [_ ->]]];
    try (now destruct Hr).
  unfold rows_of_item in Hr. cbn [fst snd] in Hr.
  destruct (negb (contains k (fields_to_ignore self))); [| now destruct Hr].
  destruct Hr as [<- | []]. cbn [probability].
  apply score_zero_or_high.
  destruct Hp as [[_ Hp] | [_ [_ Hp]]].
  - unfold _calculate_numerical_probability in Hp.
    destruct (numerical_strategy self) as [strategy |] eqn:Hs;
      [| discriminate].
    now apply (Hnum strategy g b p).
  - now apply (Hchi g b p).
Qed.

Lemma table_scores_zero_or_high_witness :
  Forall (fun r => probability r = NInt 0 \/
                   exists s, probability r = NFloat s /\
                             PrimFloat.leb 95 s = true /\
                             PrimFloat.leb s 100 = true)
         Examples.shared_table.
Proof.
  apply Forall_forall. intros r Hr.
  apply (table_scores_zero_or_high Examples.docstring_chi2
           Examples.shared_engine Examples.shared_table r).
  - intros a b p [= <-]. reflexivity.
  - intros strategy a b p [= <-] [= <-]. reflexivity.
  - reflexivity.
  - exact Hr.
Defined.

(** ** Effect size *)

Section EffectSize.

Variable chi2_contingency : Series -> Series -> result float.
Variable self : ErrorAnalyzer.

(** A field of neither frame has no entry in the map. *)
Lemma unknown_no_entry f d :
  in_good self f = false -> in_bad self f = false ->
  _calculate_probabilities chi2_contingency self = Ok d ->
  dict_get f d = None.
Proof.
  intros Hg Hb Hd. apply dict_get_None. intros Hin.
  apply (probabilities_keys _ _ _ Hd) in Hin.
  destruct Hin as [[Hin _] | [Hin _]]; apply contains_true in Hin.
  - unfold in_good in Hg. congruence.
  - unfold in_bad in Hb. congruence.
Qed.

End EffectSize.

(** X8: [calculate_effect_size] answers the sentinel [0.0] for an ignored
    field without building the map, and, when the map builds, for a
    field of neither frame and for a shared field whose reference column
    mixes types: no lookup of an absent key fails. *)
Theorem effect_size_sentinel
  (chi2_contingency : Series -> Series -> result float)
  (self : ErrorAnalyzer) (f : string) :
  (ignored self f = true ->
   calculate_effect_size chi2_contingency self f = Ok 0%float) /\
  (forall d, _calculate_probabilities chi2_contingency self = Ok d ->
     (in_good self f = false /\ in_bad self f = false) \/
     (exists g, getitem (good_data self) f = Ok g /\ in_bad self f = true /\
                forallb isinstance_int_float g = false /\
                forallb isinstance_str g = false) ->
     calculate_effect_size chi2_contingency self f = Ok 0%float).
Proof.
  split.
  - intros Hi. unfold calculate_effect_size. unfold ignored in Hi.
    now rewrite Hi.
  - intros d Hd Hcase. unfold calculate_effect_size.
    destruct (contains f (fields_to_ignore self)); [reflexivity |].
    rewrite Hd. cbn [bind].
    destruct Hcase as [[Hg Hb] | [g [Hg [Hb [Hn Hs]]]]].
    + now rewrite (unknown_no_entry _ _ f d Hg Hb Hd).
    + now rewrite (mixed_no_entry _ _ f g d Hg Hb Hn Hs Hd).
Qed.

Lemma effect_size_sentinel_witness :
  calculate_effect_size Examples.docstring_chi2 Examples.shared_engine "secret"
  = Ok 0%float /\
  calculate_effect_size Examples.docstring_chi2 Examples.shared_engine "nowhere"
  = Ok 0%float /\
  calculate_effect_size Examples.docstring_chi2 Examples.shared_engine "mixed"
  = Ok 0%float.
Proof.
  split; [| split].
  - exact (proj1 (effect_size_sentinel Examples.docstring_chi2
                    Examples.shared_engine "secret") eq_refl).
  - apply (proj2 (effect_size_sentinel Examples.docstring_chi2
                    Examples.shared_engine "nowhere")
             Examples.shared_probabilities eq_refl).
    left. split; reflexivity.
  - apply (proj2 (effect_size_sentinel Examples.docstring_chi2
                    Examples.shared_engine "mixed")
             Examples.shared_probabilities eq_refl).
    right. exists [VInt 1; VStr "x"]. repeat split.
Defined.

(** X9: for a field of the candidate frame that the reference frame lacks
    and that is not ignored, [calculate_effect_size] returns no value:
    the map holds the 4-tuple [ADDITIONAL_BAD_DATA], which does not
    unpack into three names. *)
Theorem effect_size_fails_on_additional_field
  (chi2_contingency : Series -> Series -> result float)
  (self : ErrorAnalyzer) (f : string) :
  in_good self f = false -> in_bad self f = true -> ignored self f = false ->
  (forall r, calculate_effect_size chi2_contingency self f <> Ok r) /\
  (forall d, _calculate_probabilities chi2_contingency self = Ok d ->
     dict_get f d = Some ADDITIONAL_BAD_DATA /\
     calculate_effect_size chi2_contingency self f
     = Raise (ValueError "too many values to unpack (expected 3)")).
Proof.
  intros Hg Hb Hi.
  assert (Hmain : forall d,
             _calculate_probabilities chi2_contingency self = Ok d ->
             dict_get f d = Some ADDITIONAL_BAD_DATA /\
             calculate_effect_size chi2_contingency self f
             = Raise (ValueError "too many values to unpack (expected 3)")).
  { intros d Hd.
    pose proof (additional_entry chi2_contingency self f d Hg Hb Hi Hd) as Hm.
    split; [assumption |].
    unfold calculate_effect_size. unfold ignored in Hi.
    rewrite Hi, Hd. cbn [bind]. rewrite Hm. reflexivity. }
  split; [| assumption].
  intros r Hr.
  destruct (_calculate_probabilities chi2_contingency self) as [d | e]
    eqn:Hd.
  - destruct (Hmain d eq_refl) as [_ Hraise]. congruence.
  - unfold calculate_effect_size in Hr. unfold ignored in Hi.
    rewrite Hi, Hd in Hr. discriminate.
Qed.

Lemma effect_size_fails_on_additional_field_witness :
  in_good Examples.drift_engine "new" = false /\
  in_bad Examples.drift_engine "new" = true /\
  calculate_effect_size Examples.docstring_chi2 Examples.drift_engine "new"
  = Raise (ValueError "too many values to unpack (expected 3)").
Proof.
  split; [reflexivity |]. split; [reflexivity |].
  exact (proj2 (proj2 (effect_size_fails_on_additional_field
                         Examples.docstring_chi2 Examples.drift_engine "new"
                         eq_refl eq_refl eq_refl)
                  Examples.drift_probabilities eq_refl)).
Defined.

(** X10: in frames with distinct column labels, for a shared field that
    is not ignored and whose reference column is all numbers or all
    strings, once the map is built [calculate_effect_size] is
    [_calculate_effect_size] on the two columns; the p-value of the map,
    hence the choice of strategy, has no part in the result. *)
Theorem effect_size_ignores_p_value
  (chi2_contingency : Series -> Series -> result float)
  (self : ErrorAnalyzer) (f : string) (g : Series) (d : dict entry)
  (q : float) :
  NoDup (columns (good_data self)) ->
  NoDup (columns (bad_data self)) ->
  getitem (good_data self) f = Ok g ->
  in_bad self f = true -> ignored self f = false ->
  forallb isinstance_int_float g || forallb isinstance_str g = true ->
  _calculate_probabilities chi2_contingency self = Ok d ->
  calculate_effect_size chi2_contingency self f
  = _calculate_effect_size self q f.
Proof.
  intros _ _ Hg Hb Hi Hc Hd.
  destruct (shared_entry _ _ f g d Hg Hb Hi Hc Hd) as [b [p [_ [Hget _]]]].
  unfold calculate_effect_size. unfold ignored in Hi.
  rewrite Hi, Hd. cbn [bind]. rewrite Hget. reflexivity.
Qed.

Lemma effect_size_ignores_p_value_witness :
  calculate_effect_size Examples.docstring_chi2 Examples.shared_engine "size"
  = _calculate_effect_size Examples.shared_engine 0.5 "size".
Proof.
  exact (effect_size_ignores_p_value Examples.docstring_chi2
           Examples.shared_engine "size" Examples.sizes_good
           Examples.shared_probabilities 0.5
           (distinct_NoDup (columns (good_data Examples.shared_engine))
              eq_refl)
           (distinct_NoDup (columns (bad_data Examples.shared_engine))
              eq_refl)
           eq_refl eq_refl eq_refl eq_refl eq_refl).
Defined.

(** X11: in frames with distinct column labels, for a shared field that
    is not ignored and whose reference column holds strings only (and is
    not empty), once the map is built [calculate_effect_size] raises a
    [TypeError], that of [Series.mean()], instead of returning a
    number. *)
Theorem effect_size_raises_on_strings
  (chi2_contingency : Series -> Series -> result float)
  (self : ErrorAnalyzer) (f : string) (g : Series) (d : dict entry) :
  NoDup (columns (good_data self)) ->
  NoDup (columns (bad_data self)) ->
  getitem (good_data self) f = Ok g ->
  in_bad self f = true -> ignored self f = false ->
  forallb isinstance_int_float g = false ->
  forallb isinstance_str g = true ->
  _calculate_probabilities chi2_contingency self = Ok d ->
  exists msg,
    calculate_effect_size chi2_contingency self f = Raise (TypeError msg).
Proof.
  intros _ _ Hg Hb Hi Hn Hs Hd.
  assert (Hc : forallb isinstance_int_float g || forallb isinstance_str g
               = true) by now rewrite Hs, orb_true_r.
  destruct (shared_entry _ _ f g d Hg Hb Hi Hc Hd) as [b0 [p [_ [Hget _]]]].
  unfold calculate_effect_size. unfold ignored in Hi.
  rewrite Hi, Hd. cbn [bind]. rewrite Hget. cbn [unpack3 bind].
  unfold _calculate_effect_size. rewrite Hg. cbn [bind].
  pose proof Hb as Hb'. unfold in_bad in Hb'.
  apply contains_true, In_getitem in Hb' as [b ->]. cbn [bind].
  destruct g as [| x g']; [discriminate |].
  simpl in Hs. apply andb_true_iff in Hs as [Hx _].
  destruct x; try discriminate. eexists. reflexivity.
Qed.

Lemma effect_size_raises_on_strings_witness :
  exists msg,
    calculate_effect_size Examples.docstring_chi2 Examples.shared_engine
      "color" = Raise (TypeError msg).
Proof.
  exact (effect_size_raises_on_strings Examples.docstring_chi2
           Examples.shared_engine "color" Examples.colours
           Examples.shared_probabilities
           (distinct_NoDup (columns (good_data Examples.shared_engine))
              eq_refl)
           (distinct_NoDup (columns (bad_data Examples.shared_engine))
              eq_refl)
           eq_refl eq_refl eq_refl eq_refl eq_refl eq_refl).
Defined.

(** *** Identical columns *)





(** ** Bonferroni *)

Lemma SFcompare_antisym_finite (m m' : positive) (e e' : Z) :
  SFcompare (S754_finite false m e) (S754_finite false m' e')
  = option_map CompOpp
      (SFcompare (S754_finite false m' e') (S754_finite false m e)).
Proof.
  cbn [SFcompare option_map]. f_equal.
  rewrite (Z.compare_antisym e e').
  destruct (e ?= e')%Z; cbn [CompOpp]; try reflexivity.
  change (Pos.compare_cont Eq m m') with (Pos.compare m m').
  change (Pos.compare_cont Eq m' m) with (Pos.compare m' m).
  now rewrite (Pos.compare_antisym m m'), CompOpp_involutive.
Qed.

Lemma not_above_one (a : float) :
  PrimFloat.ltb 1 a = false ->
  PrimFloat.leb a 1 = true \/ PrimFloat.eqb a a = false.
Proof.
  rewrite ltb_spec, leb_spec, eqb_spec.
  change (Prim2SF 1) with (S754_finite false 4503599627370496 (-52)).
  generalize 4503599627370496%positive (-52)%Z. intros M E.
  unfold SFltb, SFleb, SFeqb.
  destruct (Prim2SF a) as [s | [|] | | [|] m e];
    try (cbn [SFcompare]; first [solve [auto] | discriminate]).
  rewrite (SFcompare_antisym_finite M m E e).
  cbn [SFcompare option_map].
  destruct (e ?= E)%Z; [destruct (Pos.compare_cont Eq m M) | |];
    cbn [CompOpp]; first [solve [auto] | discriminate].
Qed.

(** X13: every entry of the list [adjust_p_values] returns for
    ['bonferroni'] is at most [1.0], or is NaN (for a NaN input). *)
Theorem bonferroni_capped (ps adjusted : list float) (r : float) :
  adjust_p_values ps "bonferroni" = Ok adjusted -> In r adjusted ->
  PrimFloat.leb r 1 = true \/ PrimFloat.eqb r r = false.
Proof.
  intros [= <-] Hr. unfold _apply_bonferroni_correction in Hr.
  apply in_map_iff in Hr as [a [<- _]]. unfold py_min.
  destruct (PrimFloat.ltb 1 a) eqn:E; [now left | now apply not_above_one].
Qed.

Lemma bonferroni_capped_witness :
  Forall (fun r => PrimFloat.leb r 1 = true \/ PrimFloat.eqb r r = false)
         [0.03; 0.06; 1]%float.
Proof.
  apply Forall_forall. intros r Hr.
  exact (bonferroni_capped [0.01; 0.02; 0.5]%float [0.03; 0.06; 1]%float r
           eq_refl Hr).
Defined.

(** ** Frames without columns of numbers *)



(** ** create_graphs *)

Section PlotFacts.

Import Plot.

Variable chi2_contingency : Series -> Series -> result float.
Variable self : ErrorAnalyzer.

(** With no flagged row the status colours are the mapped colours. *)
Lemma status_colors_unflagged (statuses : list bool) :
  forall (colors pre : list colour),
  Forall (fun s => s = false) statuses ->
  length statuses = length colors ->
  status_colors_from (length pre) (pre ++ colors) statuses = Ok colors.
Proof.
  induction statuses as [| s statuses IH]; intros colors pre Hall Hlen.
  - destruct colors; [reflexivity | discriminate].
  - destruct colors as [| c colors]; [discriminate |].
    inversion Hall as [| ? ? Hs Hall']; subst.
    cbn [status_colors_from negb].
    rewrite nth_error_app2, Nat.sub_diag by apply Nat.le_refl.
    cbn [nth_error bind].
    replace (pre ++ c :: colors) with ((pre ++ [c]) ++ colors)
      by now rewrite <- app_assoc.
    replace (S (length pre)) with (length (pre ++ [c]))
      by (rewrite length_app; simpl; apply Nat.add_1_r).
    rewrite (IH colors (pre ++ [c]) Hall' ltac:(now injection Hlen)).
    reflexivity.
Qed.

Lemma returned_statuses (tbl : list Row) :
  run chi2_contingency self = Ok tbl ->
  Forall (fun s => s = false) (map extra_status tbl).
Proof.
  intros Hrun. apply Forall_forall. intros s Hs.
  apply in_map_iff in Hs as [r [<- Hr]].
  exact (proj1 (returned_rows_unflagged chi2_contingency self tbl r Hrun Hr)).
Qed.

Lemma existsb_all_false (l : list bool) :
  Forall (fun s => s = false) l -> existsb (fun s => s) l = false.
Proof.
  induction 1 as [| s l Hs _ IH]; [reflexivity |]. simpl. now rewrite Hs.
Qed.

Lemma column_rows {A} (name : string) (get : Row -> A) (tbl : list Row) :
  tbl <> [] -> column name get tbl = Ok (map get tbl).
Proof. destruct tbl; [congruence | reflexivity]. Qed.

(** The figure of a table with rows. *)
Lemma create_graphs_returned (save_path : option string) (tbl : list Row) :
  run chi2_contingency self = Ok tbl -> tbl <> [] ->
  create_graphs chi2_contingency self save_path =
  Ok {| missing_bars := missing_fields self (map field tbl);
        bars := combine (combine (map field tbl) (map probability tbl))
                        (map (fun p => RdYlGn_r (norm p))
                             (map probability tbl));
        legend := false;
        saved_to := output save_path |}.
Proof.
  intros Hrun Hne. unfold create_graphs. rewrite Hrun. cbn [bind].
  pose proof (returned_statuses tbl Hrun) as Hst.
  rewrite !column_rows by assumption. cbn [bind].
  pose proof (status_colors_unflagged (map extra_status tbl)
                (map (fun p => RdYlGn_r (norm p)) (map probability tbl)) []
                Hst ltac:(now rewrite !length_map)) as Hsc.
  cbn [length app] in Hsc. rewrite Hsc.
  cbn [bind]. now rewrite (existsb_all_false _ Hst).
Qed.

Lemma create_graphs_Ok_inv (save_path : option string) (fig : Figure) :
  create_graphs chi2_contingency self save_path = Ok fig ->
  exists tbl,
    run chi2_contingency self = Ok tbl /\ tbl <> [] /\
    fig = {| missing_bars := missing_fields self (map field tbl);
             bars := combine (combine (map field tbl) (map probability tbl))
                             (map (fun p => RdYlGn_r (norm p))
                                  (map probability tbl));
             legend := false;
             saved_to := output save_path |}.
Proof.
  intros H.
  destruct (run chi2_contingency self) as [tbl | e] eqn:Hrun.
  - destruct tbl as [| r tbl'].
    + unfold create_graphs in H. rewrite Hrun in H. discriminate.
    + exists (r :: tbl'). split; [reflexivity |]. split; [discriminate |].
      rewrite (create_graphs_returned save_path (r :: tbl') Hrun) in H
        by discriminate.
      now injection H as <-.
  - unfold create_graphs in H. rewrite Hrun in H. discriminate.
Qed.

Lemma In_bars (tbl : list Row) f p c :
  In (f, p, c)
     (combine (combine (map field tbl) (map probability tbl))
              (map (fun p => RdYlGn_r (norm p)) (map probability tbl))) ->
  exists r, In r tbl /\ f = field r /\ p = probability r /\
            c = RdYlGn_r (norm (probability r)).
Proof.
  induction tbl as [| r tbl IH]; simpl; [intros [] |].
  intros [[= <- <- <-] | H].
  - exists r. auto.
  - destruct (IH H) as [r' [Hr' Heq]]. exists r'. auto.
Qed.

Lemma bars_fields (tbl : list Row) :
  map (fun b => fst (fst b))
      (combine (combine (map field tbl) (map probability tbl))
               (map (fun p => RdYlGn_r (norm p)) (map probability tbl)))
  = map field tbl.
Proof.
  induction tbl as [| r tbl IH]; simpl; [reflexivity | now rewrite IH].
Qed.

(** A table is returned only when no field drifts. *)
Lemma returned_no_drift (tbl : list Row) :
  run chi2_contingency self = Ok tbl -> no_drift self = true.
Proof.
  intros Hrun. destruct (no_drift self) eqn:Hnd; [reflexivity |].
  destruct (drift_field_exists self Hnd) as [f [Hne Hi]].
  exfalso. exact (run_fails_on_drift chi2_contingency self f Hne Hi tbl Hrun).
Qed.

(** The reference fields without a row are those of mixed type. *)
Lemma missing_fields_mixed (tbl : list Row) (f : string) :
  run chi2_contingency self = Ok tbl ->
  In f (missing_fields self (map field tbl)) <->
  In f (columns (good_data self)) /\ ignored self f = false /\
  classifiable self f = false.
Proof.
  intros Hrun.
  destruct (run_Ok _ _ _ Hrun) as [d [Hd _]].
  rewrite (run_fields _ _ _ _ Hd Hrun).
  pose proof (returned_no_drift tbl Hrun) as Hnd.
  unfold no_drift in Hnd. apply andb_true_iff in Hnd as [Hg _].
  rewrite forallb_forall in Hg.
  unfold missing_fields, fields_to_analyze.
  rewrite filter_In, nodup_In, andb_true_iff, !negb_true_iff.
  fold (ignored self f).
  assert (Hkey : In f (columns (good_data self)) -> ignored self f = false ->
                 (contains f (keys d) = false <-> classifiable self f = false)).
  { intros Hin Hi. specialize (Hg f Hin). rewrite Hi in Hg. simpl in Hg.
    assert (Hkept : kept_good self f = classifiable self f)
      by (unfold kept_good; now rewrite Hi, Hg).
    rewrite contains_false, (probabilities_keys _ _ _ Hd f), Hkept.
    unfold kept_bad, in_good.
    rewrite (proj2 (contains_true f _) Hin). cbn [negb andb].
    destruct (classifiable self f); intuition congruence. }
  split.
  - intros [Hin [Hc Hi]]. repeat split; try assumption. now apply Hkey.
  - intros [Hin [Hi Hc]]. repeat split; try assumption. now apply Hkey.
Qed.

(** A reference field that is ignored, or shared and of mixed type,
    leaves the map as it is and calls no test. *)
Lemma good_loop_skips (l : list string) (acc : dict entry) :
  (forall f, In f l ->
     In f (columns (good_data self)) /\
     ignored self f || in_bad self f = true /\
     (ignored self f = false -> classifiable self f = false)) ->
  for_each (good_field chi2_contingency self) l acc = Ok acc.
Proof.
  induction l as [| f l IH]; intros Hl; [reflexivity |].
  destruct (Hl f (or_introl eq_refl)) as [Hin [Hf Hc]].
  assert (Hstep : good_field chi2_contingency self f acc = Ok acc).
  { unfold good_field. unfold ignored, in_bad in Hf. unfold ignored in Hc.
    destruct (contains f (fields_to_ignore self)); [reflexivity |].
    simpl in Hf. rewrite Hf. cbn [negb].
    specialize (Hc eq_refl). unfold classifiable in Hc.
    destruct (In_getitem _ _ Hin) as [g Hg]. rewrite Hg in Hc.
    apply contains_true, In_getitem in Hf as [b Hb].
    rewrite Hg, Hb. cbn [bind].
    apply orb_false_iff in Hc as [-> ->]. reflexivity. }
  cbn [for_each]. rewrite Hstep. cbn [bind].
  apply IH. intros f' Hf'. apply Hl. now right.
Qed.

(** With nothing to analyse, [run] returns the table without rows. *)
Lemma run_returns_no_rows :
  no_drift self = true ->
  (forall f, In f (columns (good_data self)) -> ignored self f = false ->
             classifiable self f = false) ->
  run chi2_contingency self = Ok [].
Proof.
  unfold no_drift. intros H Hc. apply andb_true_iff in H as [Hg Hb].
  rewrite forallb_forall in Hg, Hb.
  unfold run, _calculate_probabilities.
  rewrite good_loop_skips; [cbn [bind] |].
  - rewrite (bad_loop_returns self (columns (bad_data self)) [] Hb).
    reflexivity.
  - intros f Hf. split; [assumption |]. split; [now apply Hg |].
    now apply Hc.
Qed.

End PlotFacts.

(** X15: when there is nothing to analyse (frames with distinct column
    labels, no field that is not ignored in only one of them, and every
    reference field ignored or of mixed type), [run] returns the table
    without rows and [create_graphs] draws nothing: the lookup
    [result_df['probability']] raises [KeyError], whatever the save
    path. *)
Theorem create_graphs_needs_rows
  (chi2_contingency : Series -> Series -> result float)
  (self : ErrorAnalyzer) (save_path : option string) :
  NoDup (columns (good_data self)) ->
  NoDup (columns (bad_data self)) ->
  no_drift self = true ->
  (forall f, In f (columns (good_data self)) -> ignored self f = false ->
             classifiable self f = false) ->
  run chi2_contingency self = Ok [] /\
  Plot.create_graphs chi2_contingency self save_path
  = Raise (KeyError "probability").
Proof.
  intros _ _ Hnd Hc.
  pose proof (run_returns_no_rows chi2_contingency self Hnd Hc) as Hrun.
  split; [assumption |].
  unfold Plot.create_graphs. now rewrite Hrun.
Qed.

Lemma create_graphs_needs_rows_witness :
  run Examples.docstring_chi2 MoreExamples.unanalysed_engine = Ok [] /\
  Plot.create_graphs Examples.docstring_chi2 MoreExamples.unanalysed_engine
    (Some "out.png"%string) = Raise (KeyError "probability").
Proof.
  apply (create_graphs_needs_rows Examples.docstring_chi2
           MoreExamples.unanalysed_engine (Some "out.png"%string)
           (distinct_NoDup (columns (good_data MoreExamples.unanalysed_engine))
              eq_refl)
           (distinct_NoDup (columns (bad_data MoreExamples.unanalysed_engine))
              eq_refl) eq_refl).
  intros f [<- | [<- | []]]; [discriminate | reflexivity].
Defined.

(** X16: in every figure [create_graphs] draws, the legend of missing or
    additional data is absent and every bar of a row has the colour the
    colour map gives its normalised score: no bar is drawn in the blue of
    drift rows. *)
Theorem figure_has_no_drift_marks
  (chi2_contingency : Series -> Series -> result float)
  (self : ErrorAnalyzer) (save_path : option string) (fig : Plot.Figure) :
  Plot.create_graphs chi2_contingency self save_path = Ok fig ->
  Plot.legend fig = false /\
  forall f p c, In (f, p, c) (Plot.bars fig) ->
                c = Plot.RdYlGn_r (Plot.norm p).
Proof.
  intros H.
  destruct (create_graphs_Ok_inv chi2_contingency self save_path fig H)
    as [tbl [_ [_ ->]]].
  split; [reflexivity |]. cbn [Plot.bars]. intros f p c Hin.
  destruct (In_bars tbl f p c Hin) as [r [_ [_ [-> ->]]]]. reflexivity.
Qed.

Lemma figure_has_no_drift_marks_witness :
  exists fig,
    Plot.create_graphs Examples.docstring_chi2 Examples.shared_engine None
    = Ok fig /\
    Plot.legend fig = false.
Proof.
  eexists. split.
  - exact (create_graphs_returned Examples.docstring_chi2
             Examples.shared_engine None Examples.shared_table eq_refl
             ltac:(discriminate)).
  - exact (proj1 (figure_has_no_drift_marks Examples.docstring_chi2
                    Examples.shared_engine None _
                    (create_graphs_returned Examples.docstring_chi2
                       Examples.shared_engine None Examples.shared_table
                       eq_refl ltac:(discriminate)))).
Defined.

(** X17: for frames with distinct column labels, in every figure
    [create_graphs] draws, the grey bars are the reference fields that
    are not ignored and whose column mixes types; none of them also has a
    bar of a row, and an ignored field has no bar of either kind. *)
Theorem figure_missing_bars
  (chi2_contingency : Series -> Series -> result float)
  (self : ErrorAnalyzer) (save_path : option string) (fig : Plot.Figure)
  (f : string) :
  NoDup (columns (good_data self)) ->
  NoDup (columns (bad_data self)) ->
  Plot.create_graphs chi2_contingency self save_path = Ok fig ->
  (In f (Plot.missing_bars fig) <->
   In f (columns (good_data self)) /\ ignored self f = false /\
   classifiable self f = false) /\
  (In f (Plot.missing_bars fig) ->
   ~ In f (map (fun b => fst (fst b)) (Plot.bars fig))) /\
  (ignored self f = true ->
   ~ In f (Plot.missing_bars fig) /\
   ~ In f (map (fun b => fst (fst b)) (Plot.bars fig))).
Proof.
  intros _ _ H.
  destruct (create_graphs_Ok_inv chi2_contingency self save_path fig H)
    as [tbl [Hrun [_ ->]]].
  cbn [Plot.missing_bars Plot.bars]. rewrite bars_fields.
  pose proof (missing_fields_mixed chi2_contingency self tbl f Hrun) as Hm.
  split; [exact Hm |]. split.
  - unfold Plot.missing_fields. rewrite filter_In, andb_true_iff.
    intros [_ [Hc _]]. apply negb_true_iff in Hc. now apply contains_false.
  - intros Hi. split.
    + rewrite Hm. intros [_ [Hi' _]]. congruence.
    + destruct (run_Ok _ _ _ Hrun) as [d [Hd _]].
      rewrite (run_fields _ _ _ _ Hd Hrun). intros Hin.
      pose proof (keys_not_ignored _ _ f d Hd Hin). congruence.
Qed.

Lemma figure_missing_bars_witness :
  exists fig,
    Plot.create_graphs Examples.docstring_chi2 Examples.shared_engine None
    = Ok fig /\
    In "mixed"%string (Plot.missing_bars fig) /\
    ~ In "mixed"%string (map (fun b => fst (fst b)) (Plot.bars fig)) /\
    ~ In "secret"%string (Plot.missing_bars fig).
Proof.
  eexists. split.
  - exact (create_graphs_returned Examples.docstring_chi2
             Examples.shared_engine None Examples.shared_table eq_refl
             ltac:(discriminate)).
  - destruct (figure_missing_bars Examples.docstring_chi2
                Examples.shared_engine None _ "mixed"
                (distinct_NoDup (columns (good_data Examples.shared_engine))
                   eq_refl)
                (distinct_NoDup (columns (bad_data Examples.shared_engine))
                   eq_refl)
                (create_graphs_returned Examples.docstring_chi2
                   Examples.shared_engine None Examples.shared_table
                   eq_refl ltac:(discriminate))) as [Hm [Hno _]].
    destruct (figure_missing_bars Examples.docstring_chi2
                Examples.shared_engine None _ "secret"
                (distinct_NoDup (columns (good_data Examples.shared_engine))
                   eq_refl)
                (distinct_NoDup (columns (bad_data Examples.shared_engine))
                   eq_refl)
                (create_graphs_returned Examples.docstring_chi2
                   Examples.shared_engine None Examples.shared_table
                   eq_refl ltac:(discriminate))) as [_ [_ Hs]].
    assert (Hin : In "mixed"%string
                     (Plot.missing_bars
                        {| Plot.missing_bars :=
                             Plot.missing_fields Examples.shared_engine
                               (map field Examples.shared_table);
                           Plot.bars :=
                             combine
                               (combine (map field Examples.shared_table)
                                  (map probability Examples.shared_table))
                               (map (fun p => Plot.RdYlGn_r (Plot.norm p))
                                  (map probability Examples.shared_table));
                           Plot.legend := false;
                           Plot.saved_to := Plot.output None |})).
    { apply Hm. split; [| split; reflexivity].
      right. right. now left. }
    split; [exact Hin |]. split; [exact (Hno Hin) |].
    exact (proj1 (Hs eq_refl)).
Defined.

(** ** Saturation of the score *)

Lemma leb_antisym_eqb (x y : float) :
  nonneg_finite (Prim2SF x) = true -> nonneg_finite (Prim2SF y) = true ->
  PrimFloat.leb x y = true -> PrimFloat.leb y x = true ->
  PrimFloat.eqb x y = true.
Proof.
  intros Nx Ny Hxy Hyx.
  apply (leb_scaled x y Nx Ny) in Hxy. apply (leb_scaled y x Ny Nx) in Hyx.
  rewrite eqb_spec. unfold SFeqb.
  rewrite SFcompare_scaled by auto using Prim2SF_valid.
  now rewrite (proj2 (Z.compare_eq_iff _ _) (Z.le_antisymm _ _ Hxy Hyx)).
Qed.

(** X18: every p-value between [0] and [2^-54] (about [5.55e-17]) gets
    the score [100.0]: below that size p-values are not told apart. *)
Theorem score_saturates (p : float) :
  PrimFloat.leb 0 p = true -> PrimFloat.leb p 0x1p-54 = true ->
  exists s, _calculate_probability p false = NFloat s /\
            PrimFloat.eqb s 100 = true.
Proof.
  intros H0 Hp.
  assert (Np : nonneg_finite (Prim2SF p) = true)
    by (apply (leb_nonneg p 0x1p-54); auto).
  assert (Hpa : PrimFloat.leb p alpha = true).
  { apply leb_scaled; [assumption | reflexivity |].
    apply Z.le_trans with (scaled (Prim2SF 0x1p-54)).
    - now apply leb_scaled.
    - apply (leb_scaled 0x1p-54 alpha); reflexivity. }
  assert (Hsig : PrimFloat.ltb p alpha = true).
  { apply ltb_scaled; [assumption | reflexivity |].
    apply Z.le_lt_trans with (scaled (Prim2SF 0x1p-54)).
    - now apply leb_scaled.
    - apply (ltb_scaled 0x1p-54 alpha); reflexivity. }
  exists ((1 - p) * 100)%float. split; [now apply score_significant |].
  destruct (score_scaled p H0 Hpa) as [Ns _].
  apply leb_antisym_eqb; [assumption | reflexivity | |].
  - change 100%float with ((1 - 0) * 100)%float at 2.
    apply score_antitone; auto.
  - change 100%float with ((1 - 0x1p-54) * 100)%float at 1.
    apply score_antitone; auto.
Qed.

Lemma score_saturates_witness :
  PrimFloat.leb 0 3e-17 = true /\ PrimFloat.leb 3e-17 0x1p-54 = true /\
  exists s, _calculate_probability 3e-17 false = NFloat s /\
            PrimFloat.eqb s 100 = true.
Proof.
  split; [reflexivity |]. split; [reflexivity |].
  exact (score_saturates 3e-17 eq_refl eq_refl).
Defined.

(** ** Exchanging the frames *)

Lemma SFadd_comm (x y : spec_float) :
  SFadd prec emax x y = SFadd prec emax y x.
Proof.
  destruct x as [[|] | [|] | | sx mx ex], y as [[|] | [|] | | sy my ey];
    try reflexivity.
  cbn [SFadd]. now rewrite Z.min_comm, Z.add_comm.
Qed.

Lemma float_add_comm (x y : float) : (x + y)%float = (y + x)%float.
Proof.
  apply Prim2SF_inj. rewrite !add_spec. apply SFadd_comm.
Qed.

Lemma binary_round_aux_abs (s : bool) (m e : Z) (l : location) :
  SFabs (binary_round_aux prec emax s m e l)
  = SFabs (binary_round_aux prec emax false m e l).
Proof.
  unfold binary_round_aux.
  destruct (shr_fexp prec emax m e l) as [mrs' e'].
  destruct (shr_fexp prec emax _ e' loc_Exact) as [mrs'' e''].
  destruct (shr_m mrs''); try reflexivity.
  destruct (e'' <=? emax - prec)%Z; reflexivity.
Qed.

Lemma binary_normalize_abs_opp (m e : Z) :
  SFabs (binary_normalize prec emax (- m) e false)
  = SFabs (binary_normalize prec emax m e false).
Proof.
  destruct m as [| p | p]; cbn [Z.opp binary_normalize]; try reflexivity;
    unfold binary_round;
    destruct (shl_align p e (fexp prec emax (Z.pos (digits2_pos p) + e)))
      as [mz ez];
    [| symmetry]; apply binary_round_aux_abs.
Qed.

Lemma SFsub_abs_swap (x y : spec_float) :
  SFabs (SFsub prec emax x y) = SFabs (SFsub prec emax y x).
Proof.
  destruct x as [[|] | [|] | | sx mx ex], y as [[|] | [|] | | sy my ey];
    try reflexivity.
  cbn [SFsub]. rewrite (Z.min_comm ey ex).
  rewrite <- binary_normalize_abs_opp. f_equal. f_equal.
  change IntDef.Z.min with Z.min. lia.
Qed.

Lemma float_abs_sub_swap (x y : float) :
  PrimFloat.abs (x - y) = PrimFloat.abs (y - x).
Proof.
  apply Prim2SF_inj. rewrite !abs_spec, !sub_spec. apply SFsub_abs_swap.
Qed.

(** X19: the effect size does not depend on which frame is the
    reference: a value [_calculate_effect_size] returns for a field is
    also what it returns after the two frames are exchanged. *)
Theorem effect_size_exchange (self : ErrorAnalyzer) (q : float)
  (f : string) (r : float) :
  _calculate_effect_size self q f = Ok r ->
  _calculate_effect_size (exchanged self) q f = Ok r.
Proof.
  unfold _calculate_effect_size, exchanged. cbn [good_data bad_data].
  destruct (getitem (good_data self) f) as [g | e]; cbn [bind];
    [| discriminate].
  destruct (getitem (bad_data self) f) as [b | e]; cbn [bind];
    [| discriminate].
  destruct (mean g) as [gm | e]; cbn [bind]; [| discriminate].
  destruct (mean b) as [bm | e]; cbn [bind]; [| discriminate].
  destruct (std g) as [gs | e]; cbn [bind]; [| discriminate].
  destruct (std b) as [bs | e]; cbn [bind]; [| discriminate].
  intros [= <-]. f_equal.
  rewrite (float_abs_sub_swap bm gm).
  rewrite (float_add_comm (float_of_int (Z.of_nat (length b) - 1) * (bs * bs))).
  now rewrite (Z.add_comm (Z.of_nat (length b))).
Qed.

Lemma effect_size_exchange_witness :
  (exists r, _calculate_effect_size Examples.shared_engine 0 "size" = Ok r /\
             _calculate_effect_size (exchanged Examples.shared_engine) 0 "size"
             = Ok r).
Proof.
  eexists. split; [vm_compute; reflexivity |].
  apply (effect_size_exchange Examples.shared_engine 0 "size").
  vm_compute. reflexivity.
Defined.

(** ** Drift in the probability map *)

(** X20: once the probability map is built, the entry of a field is the
    constant [MISSING_BAD_DATA] exactly when the field is in the
    reference frame only and not ignored, and [ADDITIONAL_BAD_DATA]
    exactly when it is in the candidate frame only and not ignored. *)
Theorem drift_entries_exact
  (chi2_contingency : Series -> Series -> result float)
  (self : ErrorAnalyzer) (d : dict entry) (f : string) :
  _calculate_probabilities chi2_contingency self = Ok d ->
  (dict_get f d = Some MISSING_BAD_DATA <->
   in_good self f = true /\ in_bad self f = false /\ ignored self f = false)
  /\
  (dict_get f d = Some ADDITIONAL_BAD_DATA <->
   in_good self f = false /\ in_bad self f = true /\ ignored self f = false).
Proof.
  intros Hd.
  assert (Hign : forall t, dict_get f d = Some t -> ignored self f = false).
  { intros t Ht. apply (keys_not_ignored _ _ f d Hd).
    change f with (fst (f, t)). apply in_map.
    now apply dict_get_Some_In. }
  split; split.
  - intros Hget. pose proof (Hign _ Hget) as Hi.
    destruct (probabilities_get _ _ _ _ _ Hd Hget)
      as [[Hin [_ [[Hb _] | [g [b [p [_ [_ [Ht _]]]]]]]]] | [_ [_ Ht]]];
      try discriminate.
    apply contains_true in Hin. unfold in_good. tauto.
  - intros [Hg [Hb Hi]]. now apply (missing_entry chi2_contingency self f d).
  - intros Hget. pose proof (Hign _ Hget) as Hi.
    destruct (probabilities_get _ _ _ _ _ Hd Hget)
      as [[_ [_ [[_ Ht] | [g [b [p [_ [_ [Ht _]]]]]]]]] | [Hin [Hk _]]];
      try discriminate.
    apply contains_true in Hin. unfold kept_bad in Hk.
    unfold in_bad. destruct (in_good self f); [discriminate | tauto].
  - intros [Hg [Hb Hi]].
    now apply (additional_entry chi2_contingency self f d).
Qed.

Lemma drift_entries_exact_witness :
  dict_get "gone" Examples.drift_probabilities = Some MISSING_BAD_DATA /\
  dict_get "new" Examples.drift_probabilities = Some ADDITIONAL_BAD_DATA /\
  dict_get "size" Examples.drift_probabilities <> Some MISSING_BAD_DATA.
Proof.
  split; [| split].
  - apply (proj1 (drift_entries_exact Examples.docstring_chi2
                    Examples.drift_engine Examples.drift_probabilities "gone"
                    eq_refl)).
    repeat split.
  - apply (proj2 (drift_entries_exact Examples.docstring_chi2
                    Examples.drift_engine Examples.drift_probabilities "new"
                    eq_refl)).
    repeat split.
  - intros H.
    apply (proj1 (drift_entries_exact Examples.docstring_chi2
                    Examples.drift_engine Examples.drift_probabilities "size"
                    eq_refl)) in H.
    destruct H as [_ [H _]]. discriminate H.
Defined.


